(** * comment-failure-action: the Runner of src/runner.ts

    A shallow embedding of the [Runner] class: the comment-body section
    protocol ([split_body], [replace_or_append_section], [generate_body],
    [generate_section]) as pure functions on strings, and the orchestration
    ([run] and the remote calls it awaits) as programs over the requests sent
    to the GitHub API, executed against an arbitrary remote. *)

From Stdlib Require Import Ascii String.
From Stdlib Require Import List Arith Lia Bool ZArith.
From Equations Require Import Equations.
Import ListNotations.

Set Implicit Arguments.

(** ** JavaScript strings

    A string is its sequence of code units, here of type [ascii]; the
    functions only compare code units for equality.  They are the
    ECMAScript built-ins the Runner calls, [String.prototype.includes],
    [split] (with a string separator) and [Array.prototype.join], together
    with [startsWith], [endsWith] and [indexOf], on which the standard
    builds them. *)

Module JsString.

Definition str := list ascii.

Definition lit (s : string) : str := list_ascii_of_string s.

(** The line feed, written '\n' in the source. *)
Definition nl : ascii := "010"%char.

(** [s.startsWith(t)] *)
Fixpoint starts_with (s t : str) {struct t} : bool :=
  match t, s with
  | [], _ => true
  | _ :: _, [] => false
  | b :: t', a :: s' => Ascii.eqb a b && starts_with s' t'
  end.

(** [s.endsWith(t)] *)
Definition ends_with (s t : str) : bool := starts_with (rev s) (rev t).

(** [s.indexOf(t)]: the smallest index at which [t] occurs in [s];
    [None] stands for -1. *)
Fixpoint index_of (s t : str) : option nat :=
  if starts_with s t then Some 0
  else match s with
       | [] => None
       | _ :: s' => option_map S (index_of s' t)
       end.

(** [s.includes(t)] *)
Definition includes (s t : str) : bool :=
  match index_of s t with Some _ => true | None => false end.

(** The loop of [s.split(sep)] for a separator [c :: sep'] that is not empty:
    cut at the first occurrence [j], go on with the substring from
    [j + sep.length]. *)
Equations? split_loop (c : ascii) (sep' : str) (s : str) : list str
  by wf (length s) lt :=
  split_loop c sep' [] := [[]];
  split_loop c sep' (a :: s') with index_of (a :: s') (c :: sep') := {
    | None := [a :: s'];
    | Some j := firstn j (a :: s')
                :: split_loop c sep' (skipn (j + length (c :: sep')) (a :: s')) }.
Proof. rewrite length_skipn. cbn [length]. lia. Qed.

(** [s.split(sep)]; the empty separator cuts between all code units. *)
Definition split (s sep : str) : list str :=
  match sep with
  | [] => map (fun a => [a]) s
  | c :: sep' => split_loop c sep' s
  end.

(** [l.join(sep)] for an array of strings. *)
Fixpoint join (l : list str) (sep : str) : str :=
  match l with
  | [] => []
  | [x] => x
  | x :: l' => x ++ sep ++ join l' sep
  end.

(** A string is cut cleanly when it has no occurrence of the separator and
    the first occurrence in the string followed by a separator is that
    separator. *)
Definition clean (sep s : str) : Prop :=
  includes s sep = false /\ index_of (s ++ sep) sep = Some (length s).

(** The proper overlaps of a separator with itself: the lengths [m] for
    which the first [m] code units followed by a separator start with a
    separator. *)
Definition borders (sep : str) : list nat :=
  filter (fun m => starts_with (firstn m sep ++ sep) sep)
         (seq 1 (length sep - 1)).

End JsString.
Import JsString.

(** ** The Runner: configuration and the pure section protocol *)

(** A value that the code tests against [undefined], [null] and ''. *)
Inductive nullable_string :=
| js_undefined
| js_null
| js_string (s : str).

Record Env := {
  api_token : str;
  check_suite_id : Z;
  head_branch : nullable_string;
  head_commit : str;
  workflow : str;
  owner : str;
  repo : str
}.

Section Runner.

Variable env : Env.

(** The three fields set by the constructor. *)
Definition signature : str :=
  lit "GitHub Action status on " ++ head_commit env
  ++ lit " generated by comment-failure-action".

Definition separator : str := nl :: lit "<!-- SEPARATOR -->" ++ [nl].

Definition tag : str := lit "<!-- WORKFLOW:" ++ workflow env ++ lit " -->".

(** The separator without its final line feed. *)
Definition separator_stem : str := nl :: lit "<!-- SEPARATOR -->".

Definition split_body (body : str) : list str :=
  filter (fun section => negb (includes section signature))
         (split body separator).

(** The callback of the [map] in [replace_or_append_section] writes the
    variable [replaced] of the enclosing call: the flag is threaded through
    the traversal. *)
Fixpoint map_sections (section : str) (old_sections : list str)
    (replaced : bool) : list str * bool :=
  match old_sections with
  | [] => ([], replaced)
  | old_section :: rest =>
      if includes old_section tag
      then let '(new_sections, r) := map_sections section rest true in
           (section :: new_sections, r)
      else let '(new_sections, r) := map_sections section rest replaced in
           (old_section :: new_sections, r)
  end.

Definition replace_or_append_section (section : str)
    (old_sections : list str) : list str :=
  let '(new_sections, replaced) := map_sections section old_sections false in
  if negb replaced then new_sections ++ [section] else new_sections.

Definition generate_body (sections : list str) : str :=
  join ([signature] ++ sections) separator.

End Runner.

(** ** Remote payloads

    Only the fields the Runner reads.  A comment's [body] is optional in the
    API's response type ([None] is [undefined]); a check run's [conclusion]
    is a string or [null] ([None]). *)

Record PullRequest := { number : Z }.

Record IssueComment := { id : Z; body : option str }.

Record CheckRun := {
  output_title : str;
  html_url : str;
  conclusion : option str
}.

(** [x !== 'lit'] for a nullable [x] *)
Definition strict_neq (x : option str) (s : str) : bool :=
  match x with
  | None => true
  | Some v => if list_eq_dec ascii_dec v s then false else true
  end.

Section Summary.

Variable env : Env.

Definition generate_section (failed_runs : list CheckRun) : str :=
  let strings := [tag env] in
  let strings := strings ++ [lit "### " ++ workflow env] in
  let strings :=
    if (length failed_runs =? 0)%nat
    then strings ++ [lit "No jobs failed :+1:"]
    else
      let strings := strings ++ [lit "| job | url |"] in
      let strings := strings ++ [lit "|-----|-----|"] in
      fold_left
        (fun strings failed_run =>
           let job := output_title failed_run in
           let url := html_url failed_run in
           strings ++ [lit "| " ++ job ++ lit " | " ++ url ++ lit " |"])
        failed_runs strings in
  join strings [nl].

End Summary.

(** ** Programs over the remote API

    Each [await this.octokit...] is a request whose answer the program waits
    for; [octokit.paginate] gathers all pages before it returns, and is one
    request answered with the whole list.  A request may be rejected, which
    aborts the invocation (nothing in the Runner catches). *)

Inductive request :=
| pulls_list (owner repo state head : str)
| checks_listForSuite (owner repo : str) (check_suite_id : Z) (status : str)
| issues_listComments (owner repo : str) (issue_number : Z)
| issues_updateComment (owner repo : str) (comment_id : Z) (body : str)
| issues_addLabels (owner repo : str) (issue_number : Z) (labels : str)
| issues_createComment (owner repo : str) (issue_number : Z) (body : str).

Definition response (q : request) : Type :=
  match q with
  | pulls_list _ _ _ _ => list PullRequest
  | checks_listForSuite _ _ _ _ => list CheckRun
  | issues_listComments _ _ _ => list IssueComment
  | issues_updateComment _ _ _ _ => unit
  | issues_addLabels _ _ _ _ => unit
  | issues_createComment _ _ _ _ => unit
  end.

(** The requests that change the remote state. *)
Definition is_mutation (q : request) : bool :=
  match q with
  | issues_updateComment _ _ _ _
  | issues_addLabels _ _ _ _
  | issues_createComment _ _ _ _ => true
  | _ => false
  end.

Definition error := str.

Inductive outcome (R : Type) :=
| Fulfilled (r : R)
| Rejected (e : error).
Arguments Rejected {R} e.

Inductive prog (R : Type) :=
| Ret (r : R)
| Throw (e : error)
| Info (message : str) (k : prog R)
| Await (q : request) (k : response q -> prog R).
Arguments Throw {R} e.

Fixpoint bind {A B} (p : prog A) (f : A -> prog B) : prog B :=
  match p with
  | Ret a => f a
  | Throw e => Throw e
  | Info m k => Info m (bind k f)
  | Await q k => Await q (fun x => bind (k x) f)
  end.

Notation "x <- p ;; k" := (bind p (fun x => k))
  (at level 61, p at next level, right associativity).
Notation "p ;; k" := (bind p (fun _ => k))
  (at level 61, right associativity).

Definition await (q : request) : prog (response q) := Await q (fun x => Ret x).

(** [core.info(message)] *)
Definition core_info (message : str) : prog unit := Info message (Ret tt).

Definition lift {R} (o : outcome R) : prog R :=
  match o with
  | Fulfilled r => Ret r
  | Rejected e => Throw e
  end.

(** [for (const x of l) { await body(x) }] *)
Fixpoint for_of {A} (l : list A) (body : A -> prog unit) : prog unit :=
  match l with
  | [] => Ret tt
  | x :: l' => body x ;; for_of l' body
  end.

(** A method called on [undefined] throws a TypeError. *)
Definition type_error : error := lit "TypeError".

Definition method_includes (receiver : option str) (t : str) : outcome bool :=
  match receiver with
  | None => Rejected type_error
  | Some s => Fulfilled (includes s t)
  end.

(** [x !== undefined] *)
Definition is_defined (x : option str) : bool :=
  match x with Some _ => true | None => false end.

(** [l.find(f)] for a callback that may throw; [None] is [undefined]. *)
Fixpoint array_find {A} (f : A -> outcome bool) (l : list A)
    : outcome (option A) :=
  match l with
  | [] => Fulfilled None
  | x :: l' =>
      match f x with
      | Rejected e => Rejected e
      | Fulfilled true => Fulfilled (Some x)
      | Fulfilled false => array_find f l'
      end
  end.

(** A value in a template literal. *)
Definition template (x : nullable_string) : str :=
  match x with
  | js_undefined => lit "undefined"
  | js_null => lit "null"
  | js_string s => s
  end.

Section Orchestrator.

Variable env : Env.

Definition is_pull_request : bool :=
  match head_branch env with
  | js_undefined => false
  | js_null => false
  | js_string s => if list_eq_dec ascii_dec s [] then false else true
  end.

Definition find_pull_requests : prog (list PullRequest) :=
  await (pulls_list (owner env) (repo env) (lit "open")
           (owner env ++ lit ":" ++ template (head_branch env))).

Definition is_failed (check_run : CheckRun) : bool :=
  strict_neq (conclusion check_run) (lit "success")
  && strict_neq (conclusion check_run) (lit "neutral").

Definition find_failed_check_runs : prog (list CheckRun) :=
  response <- await (checks_listForSuite (owner env) (repo env)
                       (check_suite_id env) (lit "completed")) ;;
  Ret (filter is_failed response).

(** The callback [c => c.body !== undefined && c.body.includes(signature)] *)
Definition has_signature (c : IssueComment) : outcome bool :=
  if is_defined (body c) then method_includes (body c) (signature env)
  else Fulfilled false.

Definition find_comment (pr : PullRequest) : prog (option IssueComment) :=
  comments <- await (issues_listComments (owner env) (repo env) (number pr)) ;;
  lift (array_find has_signature comments).

Definition update_comment (comment : IssueComment) (section : str)
    : prog unit :=
  match body comment with
  | None => Throw type_error
  | Some comment_body =>
      let old_sections := split_body env comment_body in
      let new_sections := replace_or_append_section env section old_sections in
      let body := generate_body env new_sections in
      await (issues_updateComment (owner env) (repo env) (id comment) body)
  end.

Definition add_label (pr : PullRequest) : prog unit :=
  await (issues_addLabels (owner env) (repo env) (number pr)
           (lit "waiting-response")).

Definition create_comment (pr : PullRequest) (section : str) : prog unit :=
  let body := generate_body env [section] in
  await (issues_createComment (owner env) (repo env) (number pr) body).

(** The body of the loop over the pull requests in [run]. *)
Definition run_pr (failed_runs : list CheckRun) (section : str)
    (pr : PullRequest) : prog unit :=
  comment <- find_comment pr ;;
  match comment with
  | Some comment =>
      update_comment comment section ;;
      core_info (lit "Updated comment") ;;
      add_label pr
  | None =>
      if (0 <? length failed_runs)%nat
      then create_comment pr section ;;
           core_info (lit "Created comment") ;;
           add_label pr
      else Ret tt
  end.

Definition run : prog unit :=
  if negb is_pull_request
  then core_info (lit "Invoked without pull request")
  else
    prs <- find_pull_requests ;;
    if (length prs =? 0)%nat
    then core_info (lit "No open pull requests found with "
                      ++ template (head_branch env) ++ lit " branch")
    else
      failed_runs <- find_failed_check_runs ;;
      let section := generate_section env failed_runs in
      for_of prs (run_pr failed_runs section).

End Orchestrator.

(** ** Execution against a remote

    A remote answers each request from its current state [W] and moves to a
    new state.  Executing a program yields its outcome, the final state of the
    remote and the trace of what the program did, in order. *)

Record remote (W : Type) := {
  respond : forall q : request, W -> outcome (response q) * W
}.

Inductive entry :=
| Logged (message : str)
| Called (q : request).

Record execution (R W : Type) := {
  result : outcome R;
  world : W;
  trace : list entry
}.

Definition logged {R W} (e : entry) (x : execution R W) : execution R W :=
  {| result := result x; world := world x; trace := e :: trace x |}.

Fixpoint exec {R W} (h : remote W) (p : prog R) (w : W) : execution R W :=
  match p with
  | Ret r => {| result := Fulfilled r; world := w; trace := [] |}
  | Throw e => {| result := Rejected e; world := w; trace := [] |}
  | Info m k => logged (Logged m) (exec h k w)
  | Await q k =>
      match respond h q w with
      | (Fulfilled x, w') => logged (Called q) (exec h (k x) w')
      | (Rejected e, w') =>
          {| result := Rejected e; world := w'; trace := [Called q] |}
      end
  end.

(** Running [k] behind an execution that was fulfilled. *)
Definition and_then {A B W} (x : execution A W)
    (k : A -> W -> execution B W) : execution B W :=
  match result x with
  | Fulfilled a =>
      let y := k a (world x) in
      {| result := result y; world := world y; trace := trace x ++ trace y |}
  | Rejected e =>
      {| result := Rejected e; world := world x; trace := trace x |}
  end.

(** The body of a comment that an entry of the trace writes, if it does. *)
Definition written_body (e : entry) : option str :=
  match e with
  | Called (issues_updateComment _ _ _ b) => Some b
  | Called (issues_createComment _ _ _ b) => Some b
  | _ => None
  end.

(** [P] holds of every entry a program can make, whatever the remote
    answers. *)
Fixpoint always {R} (P : entry -> Prop) (p : prog R) : Prop :=
  match p with
  | Ret _ => True
  | Throw _ => True
  | Info m k => P (Logged m) /\ always P k
  | Await q k => P (Called q) /\ forall x, always P (k x)
  end.

(** ** Vocabulary of the specification *)

(** [t] occurs in [s]. *)
Definition occurs_in (t s : str) : Prop := exists p r, s = p ++ t ++ r.

(** [l'] is [l] without the elements that fail [P], in the order of [l]. *)
Inductive selects {A} (P : A -> Prop) : list A -> list A -> Prop :=
| selects_nil : selects P [] []
| selects_keep x l l' : P x -> selects P l l' -> selects P (x :: l) (x :: l')
| selects_drop x l l' : ~ P x -> selects P l l' -> selects P (x :: l) l'.

(** ** Sample data: two workflows reporting on one commit *)

Module Sample.

Definition build : Env := {|
  api_token := lit "token";
  check_suite_id := 7;
  head_branch := js_string (lit "feature");
  head_commit := lit "abc123";
  workflow := lit "build";
  owner := lit "octo";
  repo := lit "demo"
|}.

Definition lint : Env := {|
  api_token := lit "token";
  check_suite_id := 8;
  head_branch := js_string (lit "feature");
  head_commit := lit "abc123";
  workflow := lit "lint";
  owner := lit "octo";
  repo := lit "demo"
|}.

Definition unit_tests : CheckRun := {|
  output_title := lit "unit tests";
  html_url := lit "http://ci/1";
  conclusion := Some (lit "failure")
|}.

Definition e2e_tests : CheckRun := {|
  output_title := lit "e2e tests";
  html_url := lit "http://ci/2";
  conclusion := Some (lit "timed_out")
|}.

(** Sections of the build workflow, and one of the lint workflow. *)
Definition build_red : str := generate_section build [unit_tests].
Definition build_red' : str := generate_section build [e2e_tests].
Definition build_green : str := generate_section build [].
Definition lint_green : str := generate_section lint [].

Definition passed : CheckRun := {|
  output_title := lit "style";
  html_url := lit "http://ci/3";
  conclusion := Some (lit "success")
|}.

Definition skipped : CheckRun := {|
  output_title := lit "docs";
  html_url := lit "http://ci/4";
  conclusion := Some (lit "neutral")
|}.

Definition pending : CheckRun := {|
  output_title := lit "deploy";
  html_url := lit "http://ci/5";
  conclusion := None
|}.

(** The comment the tool manages on pull request 11, with the sections of
    both workflows, between a comment without body and a later comment that
    quotes the signature. *)
Definition managed : IssueComment := {|
  id := 501;
  body := Some (generate_body build [build_red; lint_green])
|}.

Definition blank : IssueComment := {| id := 500; body := None |}.

Definition chatter : IssueComment := {|
  id := 499;
  body := Some (lit "looks good to me")
|}.

Definition quoting : IssueComment := {|
  id := 502;
  body := Some (lit "> " ++ signature build)
|}.

(** A remote with two open pull requests, 11 with the managed comment and
    12 without; its state counts the requests it has answered. *)
Definition github (runs : list CheckRun) : remote nat := {|
  respond q :=
    match q as q0 return nat -> outcome (response q0) * nat with
    | pulls_list _ _ _ _ =>
        fun n => (Fulfilled [{| number := 11 |}; {| number := 12 |}], S n)
    | checks_listForSuite _ _ _ _ => fun n => (Fulfilled runs, S n)
    | issues_listComments _ _ issue =>
        fun n => (Fulfilled (if (issue =? 11)%Z
                             then [blank; chatter; managed; quoting]
                             else [chatter; blank]), S n)
    | issues_updateComment _ _ _ _ => fun n => (Fulfilled tt, S n)
    | issues_addLabels _ _ _ _ => fun n => (Fulfilled tt, S n)
    | issues_createComment _ _ _ _ => fun n => (Fulfilled tt, S n)
    end
|}.

(** An invocation whose commit identifier holds the separator. *)
Definition odd : Env := {|
  api_token := lit "token";
  check_suite_id := 7;
  head_branch := js_string (lit "feature");
  head_commit := lit "abc" ++ separator ++ lit "123";
  workflow := lit "build";
  owner := lit "octo";
  repo := lit "demo"
|}.

(** An invocation for a check suite that is not on a branch. *)
Definition detached : Env := {|
  api_token := lit "token";
  check_suite_id := 9;
  head_branch := js_string [];
  head_commit := lit "abc123";
  workflow := lit "build";
  owner := lit "octo";
  repo := lit "demo"
|}.

End Sample.

(** The repository a request addresses. *)
Definition repository (q : request) : str * str :=
  match q with
  | pulls_list o r _ _ => (o, r)
  | checks_listForSuite o r _ _ => (o, r)
  | issues_listComments o r _ => (o, r)
  | issues_updateComment o r _ _ => (o, r)
  | issues_addLabels o r _ _ => (o, r)
  | issues_createComment o r _ _ => (o, r)
  end.

(** The program itself throws nothing, whatever the remote answers. *)
Fixpoint never_throws {R} (p : prog R) : Prop :=
  match p with
  | Ret _ => True
  | Throw _ => False
  | Info _ k => never_throws k
  | Await q k => forall x, never_throws (k x)
  end.

(** The entries [run] makes: a log line, or one of the six requests with the
    arguments the Runner gives them. *)
Inductive run_entry (env : Env) : entry -> Prop :=
| entry_logged message : run_entry env (Logged message)
| entry_pulls :
    run_entry env
      (Called (pulls_list (owner env) (repo env) (lit "open")
                 (owner env ++ lit ":" ++ template (head_branch env))))
| entry_checks :
    run_entry env
      (Called (checks_listForSuite (owner env) (repo env)
                 (check_suite_id env) (lit "completed")))
| entry_comments issue :
    run_entry env
      (Called (issues_listComments (owner env) (repo env) issue))
| entry_update comment_id failed_runs old_sections :
    run_entry env
      (Called (issues_updateComment (owner env) (repo env) comment_id
                 (generate_body env
                    (replace_or_append_section env
                       (generate_section env failed_runs) old_sections))))
| entry_create issue failed_runs :
    run_entry env
      (Called (issues_createComment (owner env) (repo env) issue
                 (generate_body env [generate_section env failed_runs])))
| entry_label issue :
    run_entry env
      (Called (issues_addLabels (owner env) (repo env) issue
                 (lit "waiting-response"))).

(** ** Sample data: a remote that fails *)

Module Outage.

Definition http_error : error := lit "HttpError".

(** The remote of [Sample.github], except that it rejects the requests that
    [fails] picks. *)
Definition rejecting (fails : request -> bool) (runs : list CheckRun)
    : remote nat := {|
  respond q n :=
    if fails q then (Rejected http_error, S n)
    else respond (Sample.github runs) q n
|}.

Definition is_pulls (q : request) : bool :=
  match q with pulls_list _ _ _ _ => true | _ => false end.

Definition is_checks (q : request) : bool :=
  match q with checks_listForSuite _ _ _ _ => true | _ => false end.

Definition is_update (q : request) : bool :=
  match q with issues_updateComment _ _ _ _ => true | _ => false end.

(** A remote without open pull requests. *)
Definition deserted : remote nat := {|
  respond q :=
    match q as q0 return nat -> outcome (response q0) * nat with
    | pulls_list _ _ _ _ => fun n => (Fulfilled [], S n)
    | checks_listForSuite _ _ _ _ => fun n => (Fulfilled [], S n)
    | issues_listComments _ _ _ => fun n => (Fulfilled [], S n)
    | issues_updateComment _ _ _ _ => fun n => (Fulfilled tt, S n)
    | issues_addLabels _ _ _ _ => fun n => (Fulfilled tt, S n)
    | issues_createComment _ _ _ _ => fun n => (Fulfilled tt, S n)
    end
|}.

End Outage.

(** * Properties *)

(** ** Occurrences of one string in another *)

Section Occurrences.

Lemma starts_with_iff (s t : str) :
  starts_with s t = true <-> exists r, s = t ++ r.
Proof.
  revert s. induction t as [|b t IH]; intros s.
  - destruct s; simpl; split; eauto.
  - destruct s as [|a s]; simpl.
    + split; [discriminate | intros [r Hr]; discriminate].
    + rewrite andb_true_iff, Ascii.eqb_eq, IH. split.
      * intros [-> [r ->]]. now exists r.
      * intros [r Hr]. injection Hr as -> ->. eauto.
Qed.

Lemma starts_with_app (t r : str) : starts_with (t ++ r) t = true.
Proof. apply starts_with_iff. now exists r. Qed.

Lemma starts_with_refl (t : str) : starts_with t t = true.
Proof. apply starts_with_iff. exists []. now rewrite app_nil_r. Qed.

Lemma starts_with_length (s t : str) :
  starts_with s t = true -> length t <= length s.
Proof.
  intros [r ->]%starts_with_iff. rewrite length_app. lia.
Qed.

(** An occurrence that fits in the front part does not look at the rest. *)
Lemma starts_with_within (x y t : str) :
  length t <= length x -> starts_with (x ++ y) t = starts_with x t.
Proof.
  revert x. induction t as [|b t IH]; intros x Hlen.
  - now destruct x.
  - destruct x as [|a x]; simpl in Hlen; [lia|].
    simpl. rewrite IH by lia. reflexivity.
Qed.

Lemma index_of_bound (s t : str) (j : nat) :
  index_of s t = Some j -> j <= length s.
Proof.
  revert j. induction s as [|a s IH]; intros j; simpl.
  - destruct (starts_with [] t); [|discriminate].
    intros [= <-]. lia.
  - destruct (starts_with (a :: s) t); [intros [= <-]; lia|].
    destruct (index_of s t) as [k|]; simpl; [|discriminate].
    intros [= <-]. specialize (IH k eq_refl). lia.
Qed.

(** [indexOf] finds an occurrence, and there is none before it. *)
Lemma index_of_Some (s t : str) (j : nat) :
  index_of s t = Some j <->
  starts_with (skipn j s) t = true /\ j <= length s /\
  forall i, i < j -> starts_with (skipn i s) t = false.
Proof.
  revert j. induction s as [|a s IH]; intros j.
  - simpl. destruct (starts_with [] t) eqn:E.
    + split.
      * intros [= <-]. simpl. repeat split; [assumption | lia | intros; lia].
      * intros (_ & Hj & _). simpl in Hj. f_equal. lia.
    + split; [discriminate|].
      intros (H & _ & _). rewrite skipn_nil in H. congruence.
  - cbn [index_of]. destruct (starts_with (a :: s) t) eqn:E.
    + split.
      * intros [= <-]. simpl. repeat split; [assumption | lia | intros; lia].
      * intros (_ & _ & Hmin). destruct j as [|j]; [reflexivity|].
        specialize (Hmin 0 ltac:(lia)). simpl in Hmin. congruence.
    + destruct j as [|j].
      * split.
        -- destruct (index_of s t); discriminate.
        -- intros (H & _ & _). simpl in H. congruence.
      * specialize (IH j). split.
        -- destruct (index_of s t) as [k|]; simpl; [|discriminate].
           intros [= ->]. destruct IH as [IH _].
           destruct (IH eq_refl) as (H1 & H2 & H3).
           repeat split; [assumption | simpl; lia |].
           intros [|i] Hi; simpl; [assumption | apply H3; lia].
        -- intros (H1 & H2 & H3). destruct IH as [_ IH].
           rewrite IH; [reflexivity|].
           repeat split; [assumption | simpl in H2; lia |].
           intros i Hi. apply (H3 (S i)). lia.
Qed.

Lemma index_of_None (s t : str) :
  index_of s t = None <-> forall i, starts_with (skipn i s) t = false.
Proof.
  induction s as [|a s IH].
  - simpl. destruct (starts_with [] t) eqn:E.
    + split; [discriminate|]. intros H. specialize (H 0). simpl in H. congruence.
    + split; [|reflexivity]. intros _ i. now rewrite skipn_nil.
  - cbn [index_of]. destruct (starts_with (a :: s) t) eqn:E.
    + split; [discriminate|]. intros H. specialize (H 0). simpl in H. congruence.
    + destruct (index_of s t) as [k|]; simpl.
      * split; [discriminate|]. intros H.
        assert (Some k = None) as F; [|discriminate F].
        apply IH. intros i. apply (H (S i)).
      * split; [|reflexivity]. intros _ [|i]; simpl; [assumption|].
        now apply IH.
Qed.

Lemma includes_false (s t : str) :
  includes s t = false <-> forall i, starts_with (skipn i s) t = false.
Proof.
  unfold includes. rewrite <- index_of_None.
  destruct (index_of s t); split; congruence.
Qed.

Lemma includes_refl (s : str) : includes s s = true.
Proof.
  unfold includes. destruct s as [|a s]; [reflexivity|].
  cbn [index_of]. now rewrite starts_with_refl.
Qed.

Lemma includes_infix (p t r : str) : includes (p ++ t ++ r) t = true.
Proof.
  destruct (includes (p ++ t ++ r) t) eqn:E; [reflexivity|].
  rewrite includes_false in E. specialize (E (length p)).
  rewrite skipn_app, skipn_all, Nat.sub_diag in E. simpl in E.
  now rewrite starts_with_app in E.
Qed.

Lemma ends_with_app (p t : str) : ends_with (p ++ t) t = true.
Proof.
  unfold ends_with. rewrite rev_app_distr. apply starts_with_app.
Qed.

End Occurrences.

(** ** Splitting what was joined *)

Section SplitJoin.

Lemma skipn_exact (x y : str) : skipn (length x) (x ++ y) = y.
Proof. induction x; simpl; auto. Qed.

Lemma firstn_exact (x y : str) : firstn (length x) (x ++ y) = x.
Proof. induction x; simpl; congruence. Qed.

Lemma skipn_front (i : nat) (x y : str) :
  i <= length x -> skipn i (x ++ y) = skipn i x ++ y.
Proof.
  intros H. rewrite skipn_app. replace (i - length x) with 0 by lia.
  reflexivity.
Qed.

Variables (c : ascii) (sep' : str).
Local Abbreviation sep := (c :: sep').

Lemma split_loop_unfold (s : str) :
  split_loop c sep' s =
  match index_of s sep with
  | None => [s]
  | Some j => firstn j s :: split_loop c sep' (skipn (j + length sep) s)
  end.
Proof.
  destruct s as [|a s]; [reflexivity|].
  simp split_loop. destruct (index_of (a :: s) sep); reflexivity.
Qed.

Lemma split_loop_whole (s : str) :
  includes s sep = false -> split_loop c sep' s = [s].
Proof.
  unfold includes. intros H. rewrite split_loop_unfold.
  destruct (index_of s sep); [discriminate | reflexivity].
Qed.

Lemma split_loop_cut (x rest : str) :
  index_of (x ++ sep) sep = Some (length x) ->
  split_loop c sep' (x ++ sep ++ rest) = x :: split_loop c sep' rest.
Proof.
  intros H. rewrite split_loop_unfold.
  assert (index_of (x ++ sep ++ rest) sep = Some (length x)) as ->.
  { apply index_of_Some in H. destruct H as (_ & _ & Hmin).
    apply index_of_Some. repeat split.
    - rewrite skipn_exact. apply starts_with_app.
    - rewrite length_app. lia.
    - intros i Hi. specialize (Hmin i Hi).
      rewrite app_assoc, skipn_front by (rewrite length_app; lia).
      rewrite starts_with_within; [assumption|].
      rewrite length_skipn, length_app. lia. }
  rewrite firstn_exact. do 2 f_equal.
  rewrite app_assoc, <- length_app. apply skipn_exact.
Qed.

Lemma split_join (x : str) (l : list str) :
  Forall (clean sep) (x :: l) -> split (join (x :: l) sep) sep = x :: l.
Proof.
  unfold split. revert x. induction l as [|y l IH]; intros x Hall.
  - apply Forall_inv in Hall. destruct Hall as [H _].
    now apply split_loop_whole.
  - pose proof (Forall_inv Hall) as [_ Hx]. apply Forall_inv_tail in Hall.
    change (join (x :: y :: l) sep) with (x ++ sep ++ join (y :: l) sep).
    rewrite split_loop_cut by assumption. f_equal. now apply IH.
Qed.

Lemma clean_intro (s : str) :
  includes s sep = false ->
  (forall m, In m (borders sep) -> ends_with s (firstn m sep) = false) ->
  clean sep s.
Proof.
  intros Hinc Hend. split; [assumption|].
  apply index_of_Some. repeat split.
  - rewrite skipn_exact. apply starts_with_refl.
  - rewrite length_app. lia.
  - intros i Hi. rewrite skipn_front by lia.
    set (u := skipn i s).
    assert (length u = length s - i) as Hu by apply length_skipn.
    destruct (le_lt_dec (length sep) (length u)) as [Hge|Hlt].
    + rewrite starts_with_within by assumption.
      rewrite includes_false in Hinc. apply Hinc.
    + destruct (starts_with (u ++ sep) sep) eqn:E; [exfalso | reflexivity].
      assert (u = firstn (length u) sep) as Hpre.
      { apply starts_with_iff in E. destruct E as [r Hr].
        apply (f_equal (firstn (length u))) in Hr.
        rewrite firstn_exact in Hr. rewrite Hr at 1.
        rewrite firstn_app.
        replace (length u - length sep) with 0 by lia.
        simpl. now rewrite app_nil_r. }
      assert (In (length u) (borders sep)) as Hin.
      { unfold borders. apply filter_In. split.
        - apply in_seq. lia.
        - now rewrite <- Hpre. }
      specialize (Hend _ Hin). rewrite <- Hpre in Hend.
      rewrite <- (firstn_skipn i s) in Hend. fold u in Hend.
      now rewrite ends_with_app in Hend.
Qed.

End SplitJoin.

(** ** SectionCodec: parsing a rendered body *)

Section Codec.

Variable env : Env.

Lemma separator_borders :
  borders separator = [19].
Proof. vm_compute. reflexivity. Qed.

Lemma separator_clean (s : str) :
  includes s separator = false ->
  ends_with s separator_stem = false ->
  clean separator s.
Proof.
  intros Hinc Hend. apply clean_intro; [exact Hinc|].
  pose proof separator_borders as Hb. unfold separator in Hb.
  intros m. rewrite Hb. intros [<-|[]]. exact Hend.
Qed.

Lemma signature_not_ends_with_stem :
  ends_with (signature env) separator_stem = false.
Proof.
  unfold ends_with, signature. rewrite !rev_app_distr. reflexivity.
Qed.

Lemma filter_all {A} (f : A -> bool) (l : list A) :
  Forall (fun x => f x = true) l -> filter f l = l.
Proof.
  induction 1 as [|x l Hx _ IH]; simpl; [reflexivity|].
  now rewrite Hx, IH.
Qed.

End Codec.

(** ** SectionMerger *)

Section Merger.

Variable env : Env.

(** What the callback of the [map] returns for one old section. *)
Local Abbreviation substitute section :=
  (fun old_section : str =>
     if includes old_section (tag env) then section else old_section).

Lemma map_sections_spec (section : str) (old_sections : list str)
    (replaced : bool) :
  map_sections env section old_sections replaced =
  (map (substitute section) old_sections,
   replaced || existsb (fun o => includes o (tag env)) old_sections).
Proof.
  revert replaced. induction old_sections as [|o l IH]; intros replaced; simpl.
  - now rewrite orb_false_r.
  - destruct (includes o (tag env)); rewrite IH; simpl.
    + now rewrite orb_true_r.
    + reflexivity.
Qed.

Lemma replace_or_append_section_spec (section : str) (old_sections : list str) :
  replace_or_append_section env section old_sections =
  if existsb (fun o => includes o (tag env)) old_sections
  then map (substitute section) old_sections
  else map (substitute section) old_sections ++ [section].
Proof.
  unfold replace_or_append_section. rewrite map_sections_spec. simpl.
  now destruct (existsb _ old_sections).
Qed.

Lemma substitute_absent (section : str) (l : list str) :
  existsb (fun o => includes o (tag env)) l = false ->
  map (substitute section) l = l.
Proof.
  induction l as [|o l IH]; simpl; [reflexivity|].
  intros [Ho Hl]%orb_false_elim. now rewrite Ho, IH.
Qed.

End Merger.

(** ** Claims on the section protocol *)

(** C1, as stated, fails: with [build_red] and [build_red'] both carrying
    the tag of the build workflow and the new section [build_green] carrying
    it too, the later duplicate does not stay: both are replaced. *)
Lemma replace_or_append_section_first_only_fails :
  includes Sample.build_green (tag Sample.build) = true /\
  includes Sample.build_red (tag Sample.build) = true /\
  includes Sample.lint_green (tag Sample.build) = false /\
  includes Sample.build_red' (tag Sample.build) = true /\
  replace_or_append_section Sample.build Sample.build_green
    [Sample.build_red; Sample.lint_green; Sample.build_red']
  = [Sample.build_green; Sample.lint_green; Sample.build_green] /\
  replace_or_append_section Sample.build Sample.build_green
    [Sample.build_red; Sample.lint_green; Sample.build_red']
  <> [Sample.build_green; Sample.lint_green; Sample.build_red'].
Proof.
  repeat split; try (vm_compute; reflexivity).
  vm_compute. discriminate.
Qed.

(** C1 (amended): when some old section carries the invocation's tag,
    [replace_or_append_section] replaces every old section that carries the
    tag with the new section, at its position, leaves every other section
    unchanged at its position, and appends nothing. *)
Theorem replace_or_append_section_replaces_every_tagged
    (env : Env) (s : str) (old : list str) :
  existsb (fun o => includes o (tag env)) old = true ->
  replace_or_append_section env s old
  = map (fun o => if includes o (tag env) then s else o) old.
Proof.
  intros H. now rewrite replace_or_append_section_spec, H.
Qed.

Lemma replace_or_append_section_replaces_every_tagged_witness :
  replace_or_append_section Sample.build Sample.build_green
    [Sample.build_red; Sample.lint_green; Sample.build_red']
  = map (fun o => if includes o (tag Sample.build)
                  then Sample.build_green else o)
      [Sample.build_red; Sample.lint_green; Sample.build_red'].
Proof.
  apply (replace_or_append_section_replaces_every_tagged Sample.build).
  vm_compute. reflexivity.
Defined.

(** C2, as stated, fails: a section that ends with the separator less its
    final line feed contains neither the separator nor the signature, yet
    together with the separator that follows it in the body it makes an
    earlier occurrence of the separator, and the body is cut there. *)
Lemma split_body_generate_body_fails :
  Forall (fun s => includes s separator = false /\
                   includes s (signature Sample.build) = false)
    [lit "x" ++ separator_stem; lit "y"] /\
  split_body Sample.build
    (generate_body Sample.build [lit "x" ++ separator_stem; lit "y"])
  = [lit "x"; lit "<!-- SEPARATOR -->" ++ [nl] ++ lit "y"] /\
  split_body Sample.build
    (generate_body Sample.build [lit "x" ++ separator_stem; lit "y"])
  <> [lit "x" ++ separator_stem; lit "y"].
Proof.
  split; [|split].
  - repeat constructor; vm_compute; reflexivity.
  - vm_compute. reflexivity.
  - vm_compute. discriminate.
Qed.

(** C2 (amended): when the signature does not contain the separator, and no
    section contains the separator or the signature or ends with the
    separator less its final line feed, parsing the rendered body gives the
    sections back. *)
Theorem split_body_generate_body (env : Env) (sections : list str) :
  includes (signature env) separator = false ->
  Forall (fun s => includes s separator = false /\
                   includes s (signature env) = false /\
                   ends_with s separator_stem = false) sections ->
  split_body env (generate_body env sections) = sections.
Proof.
  intros Hsig Hall. unfold split_body, generate_body.
  change ([signature env] ++ sections) with (signature env :: sections).
  unfold separator at 1 2. rewrite split_join.
  - simpl. rewrite includes_refl. simpl. apply filter_all.
    eapply Forall_impl; [|exact Hall].
    intros s (_ & -> & _). reflexivity.
  - constructor.
    + apply separator_clean; [assumption|].
      apply signature_not_ends_with_stem.
    + eapply Forall_impl; [|exact Hall].
      intros s (H1 & _ & H3). now apply separator_clean.
Qed.

Lemma split_body_generate_body_witness :
  split_body Sample.build
    (generate_body Sample.build [Sample.build_red; Sample.lint_green])
  = [Sample.build_red; Sample.lint_green].
Proof.
  apply (split_body_generate_body Sample.build).
  - vm_compute. reflexivity.
  - repeat constructor; vm_compute; reflexivity.
Defined.

(** The signature has to be free of the separator as well: otherwise its
    pieces come back as sections. *)
Remark split_body_generate_body_odd_signature :
  includes (signature Sample.odd) separator = true /\
  split_body Sample.odd (generate_body Sample.odd [lit "y"])
  = [lit "GitHub Action status on abc";
     lit "123 generated by comment-failure-action";
     lit "y"].
Proof. split; vm_compute; reflexivity. Qed.

(** C3, as stated, fails: a section of the lint workflow does not carry the
    tag of the build workflow, so reconciling it a second time in an
    invocation for build appends it a second time. *)
Lemma replace_or_append_section_not_idempotent :
  replace_or_append_section Sample.build Sample.lint_green
    (replace_or_append_section Sample.build Sample.lint_green [])
  = [Sample.lint_green; Sample.lint_green] /\
  replace_or_append_section Sample.build Sample.lint_green []
  = [Sample.lint_green] /\
  replace_or_append_section Sample.build Sample.lint_green
    (replace_or_append_section Sample.build Sample.lint_green [])
  <> replace_or_append_section Sample.build Sample.lint_green [].
Proof.
  repeat split; try (vm_compute; reflexivity).
  vm_compute. discriminate.
Qed.

Lemma replace_or_append_section_twice (env : Env) (s : str)
    (old : list str) :
  includes s (tag env) = true ->
  replace_or_append_section env s (replace_or_append_section env s old)
  = replace_or_append_section env s old.
Proof.
  intros Hs.
  assert (forall l, map (fun o => if includes o (tag env) then s else o)
                      (map (fun o => if includes o (tag env) then s else o) l)
                    = map (fun o => if includes o (tag env) then s else o) l)
    as Hmap.
  { intros l. rewrite map_map. apply map_ext. intros o.
    destruct (includes o (tag env)) eqn:E; [now rewrite Hs | now rewrite E]. }
  rewrite (replace_or_append_section_spec env s old).
  destruct (existsb (fun o => includes o (tag env)) old) eqn:E.
  - rewrite replace_or_append_section_spec.
    assert (existsb (fun o => includes o (tag env))
              (map (fun o => if includes o (tag env) then s else o) old)
            = true) as ->.
    { apply existsb_exists in E. destruct E as (o & Hin & Ho).
      apply existsb_exists. exists s. split; [|assumption].
      apply in_map_iff. exists o. now rewrite Ho. }
    apply Hmap.
  - rewrite replace_or_append_section_spec.
    rewrite existsb_app. simpl. rewrite Hs, orb_true_r.
    rewrite map_app, Hmap. simpl. now rewrite Hs.
Qed.

(** C3 (amended): for every new section that carries the invocation's tag
    and every old section list, reconciling twice gives the same list as
    reconciling once. *)
Theorem replace_or_append_section_idempotent
    (env : Env) (s : str) (old : list str) :
  includes s (tag env) = true ->
  replace_or_append_section env s (replace_or_append_section env s old)
  = replace_or_append_section env s old.
Proof. apply replace_or_append_section_twice. Qed.

Lemma replace_or_append_section_idempotent_witness :
  replace_or_append_section Sample.build Sample.build_green
    (replace_or_append_section Sample.build Sample.build_green
       [Sample.build_red; Sample.lint_green])
  = replace_or_append_section Sample.build Sample.build_green
      [Sample.build_red; Sample.lint_green].
Proof.
  apply (replace_or_append_section_idempotent Sample.build).
  vm_compute. reflexivity.
Defined.

(** ** Executions *)

Section Execution.

Context {W : Type} (h : remote W).

Lemma and_then_logged {A B} (e : entry) (x : execution A W)
    (k : A -> W -> execution B W) :
  and_then (logged e x) k = logged e (and_then x k).
Proof.
  unfold and_then, logged. simpl. now destruct (result x).
Qed.

Lemma exec_bind {A B} (p : prog A) (f : A -> prog B) (w : W) :
  exec h (bind p f) w = and_then (exec h p w) (fun a w' => exec h (f a) w').
Proof.
  revert w. induction p as [r|e|m k IH|q k IH]; intros w; simpl.
  - unfold and_then. simpl. now destruct (exec h (f r) w).
  - reflexivity.
  - now rewrite IH, and_then_logged.
  - destruct (respond h q w) as [[x|e] w'].
    + now rewrite IH, and_then_logged.
    + reflexivity.
Qed.

Lemma trace_and_then {A B} (x : execution A W) (k : A -> W -> execution B W) :
  trace (and_then x k)
  = trace x ++ match result x with
               | Fulfilled a => trace (k a (world x))
               | Rejected _ => []
               end.
Proof.
  unfold and_then. destruct (result x); simpl; [reflexivity|].
  now rewrite app_nil_r.
Qed.

Lemma exec_for_of_app {A} (l1 l2 : list A) (body : A -> prog unit) (w : W) :
  exec h (for_of (l1 ++ l2) body) w
  = and_then (exec h (for_of l1 body) w)
      (fun _ w' => exec h (for_of l2 body) w').
Proof.
  revert w. induction l1 as [|x l1 IH]; intros w; simpl.
  - unfold and_then. simpl. now destruct (exec h (for_of l2 body) w).
  - rewrite !exec_bind. unfold and_then at 1 3.
    destruct (result (exec h (body x) w)); [|reflexivity].
    rewrite IH. unfold and_then. simpl.
    destruct (result (exec h (for_of l1 body) _)); simpl.
    + now rewrite app_assoc.
    + reflexivity.
Qed.

Lemma always_trace {R} (P : entry -> Prop) (p : prog R) (w : W) :
  always P p -> Forall P (trace (exec h p w)).
Proof.
  revert w. induction p as [r|e|m k IH|q k IH]; intros w Hp; simpl.
  - constructor.
  - constructor.
  - destruct Hp. constructor; auto.
  - destruct Hp as [Hq Hk]. destruct (respond h q w) as [[x|e] w']; simpl.
    + constructor; auto.
    + constructor; [assumption | constructor].
Qed.

Lemma always_bind {A B} (P : entry -> Prop) (p : prog A) (f : A -> prog B) :
  always P p -> (forall a, always P (f a)) -> always P (bind p f).
Proof.
  intros Hp Hf. induction p as [r|e|m k IH|q k IH]; simpl in *.
  - apply Hf.
  - exact I.
  - destruct Hp. split; auto.
  - destruct Hp as [Hq Hk]. split; auto.
Qed.

Lemma always_for_of {A} (P : entry -> Prop) (l : list A)
    (body : A -> prog unit) :
  (forall x, always P (body x)) -> always P (for_of l body).
Proof.
  intros Hb. induction l as [|x l IH]; simpl; [exact I|].
  apply always_bind; auto.
Qed.

End Execution.

(** ** Finding the managed comment *)

Section Finding.

Variable env : Env.

Lemma includes_iff (s t : str) : includes s t = true <-> occurs_in t s.
Proof.
  split.
  - unfold includes. destruct (index_of s t) as [j|] eqn:E; [|discriminate].
    intros _. apply index_of_Some in E. destruct E as (H & _ & _).
    apply starts_with_iff in H. destruct H as [r Hr].
    exists (firstn j s), r. now rewrite <- Hr, firstn_skipn.
  - intros (p & r & ->). apply includes_infix.
Qed.

(** The callback never throws: the test against [undefined] guards the
    method call. *)
Lemma has_signature_value (c : IssueComment) :
  has_signature env c
  = Fulfilled match body c with
              | Some b => includes b (signature env)
              | None => false
              end.
Proof.
  unfold has_signature. now destruct (body c).
Qed.

Lemma array_find_has_signature (comments : list IssueComment) :
  array_find (has_signature env) comments
  = Fulfilled (find (fun c => match body c with
                              | Some b => includes b (signature env)
                              | None => false
                              end) comments).
Proof.
  induction comments as [|c l IH]; simpl; [reflexivity|].
  rewrite has_signature_value.
  now destruct (match body c with Some _ => _ | None => _ end).
Qed.

Lemma array_find_found (comments : list IssueComment) (c : IssueComment) :
  array_find (has_signature env) comments = Fulfilled (Some c) ->
  In c comments /\
  exists b, body c = Some b /\ includes b (signature env) = true.
Proof.
  rewrite array_find_has_signature. intros [= H].
  apply find_some in H. destruct H as [Hin Hc]. split; [assumption|].
  destruct (body c) as [b|]; [eauto | discriminate].
Qed.

Lemma array_find_first (pre post : list IssueComment) (c : IssueComment) :
  Forall (fun x => has_signature env x = Fulfilled false) pre ->
  has_signature env c = Fulfilled true ->
  array_find (has_signature env) (pre ++ c :: post) = Fulfilled (Some c).
Proof.
  intros Hpre Hc. induction Hpre as [|x pre Hx _ IH]; simpl.
  - now rewrite Hc.
  - now rewrite Hx.
Qed.

End Finding.

(** ** The loop of [run] *)

Section Loop.

Context {W : Type} (h : remote W) (env : Env).

Lemma exec_find_comment (pr : PullRequest) (w : W) :
  exec h (find_comment env pr) w
  = match respond h (issues_listComments (owner env) (repo env) (number pr)) w
    with
    | (Fulfilled comments, w') =>
        {| result := array_find (has_signature env) comments;
           world := w';
           trace := [Called (issues_listComments (owner env) (repo env)
                               (number pr))] |}
    | (Rejected e, w') =>
        {| result := Rejected e;
           world := w';
           trace := [Called (issues_listComments (owner env) (repo env)
                               (number pr))] |}
    end.
Proof.
  unfold find_comment. cbn [bind await exec].
  destruct (respond h _ w) as [[comments|e] w']; [|reflexivity].
  rewrite array_find_has_signature. reflexivity.
Qed.

Lemma exec_run_loop (w0 w1 w2 : W) (prs : list PullRequest)
    (runs : list CheckRun) :
  is_pull_request env = true ->
  respond h (pulls_list (owner env) (repo env) (lit "open")
               (owner env ++ lit ":" ++ template (head_branch env))) w0
  = (Fulfilled prs, w1) ->
  prs <> [] ->
  respond h (checks_listForSuite (owner env) (repo env) (check_suite_id env)
               (lit "completed")) w1
  = (Fulfilled runs, w2) ->
  exec h (run env) w0
  = logged (Called (pulls_list (owner env) (repo env) (lit "open")
                      (owner env ++ lit ":" ++ template (head_branch env))))
      (logged (Called (checks_listForSuite (owner env) (repo env)
                         (check_suite_id env) (lit "completed")))
         (exec h (for_of prs
                    (run_pr env (filter is_failed runs)
                       (generate_section env (filter is_failed runs)))) w2)).
Proof.
  intros Hgate Hpulls Hne Hchecks. unfold run. rewrite Hgate.
  cbn [negb]. unfold find_pull_requests. cbn [bind await exec].
  rewrite Hpulls. destruct prs as [|pr prs']; [congruence|].
  cbn [length Nat.eqb].
  unfold find_failed_check_runs. cbn [bind await exec].
  rewrite Hchecks. reflexivity.
Qed.

End Loop.

(** ** One pull request of the loop *)

Section Iteration.

Context {W : Type} (h : remote W) (env : Env).

Lemma exec_await (q : request) (w : W) :
  exec h (await q) w
  = {| result := fst (respond h q w);
       world := snd (respond h q w);
       trace := [Called q] |}.
Proof.
  unfold await. cbn [exec]. now destruct (respond h q w) as [[x|e] w'].
Qed.

Lemma exec_add_label (pr : PullRequest) (w : W) :
  exec h (add_label env pr) w
  = {| result := fst (respond h (issues_addLabels (owner env) (repo env)
                                   (number pr) (lit "waiting-response")) w);
       world := snd (respond h (issues_addLabels (owner env) (repo env)
                                  (number pr) (lit "waiting-response")) w);
       trace := [Called (issues_addLabels (owner env) (repo env) (number pr)
                           (lit "waiting-response"))] |}.
Proof.
  exact (exec_await (issues_addLabels (owner env) (repo env) (number pr)
                       (lit "waiting-response")) w).
Qed.

Lemma exec_run_pr_found (w w' : W) (comments : list IssueComment)
    (c : IssueComment) (b : str) (failed_runs : list CheckRun) (section : str)
    (pr : PullRequest) :
  respond h (issues_listComments (owner env) (repo env) (number pr)) w
  = (Fulfilled comments, w') ->
  array_find (has_signature env) comments = Fulfilled (Some c) ->
  body c = Some b ->
  exec h (run_pr env failed_runs section pr) w
  = logged (Called (issues_listComments (owner env) (repo env) (number pr)))
      (and_then
         (exec h (await (issues_updateComment (owner env) (repo env) (id c)
                           (generate_body env
                              (replace_or_append_section env section
                                 (split_body env b))))) w')
         (fun _ w'' =>
            logged (Logged (lit "Updated comment"))
              (exec h (add_label env pr) w''))).
Proof.
  intros Hlist Hfind Hbody. unfold run_pr.
  rewrite exec_bind, exec_find_comment, Hlist, Hfind.
  unfold and_then at 1. cbn [result world trace].
  unfold update_comment. rewrite Hbody.
  rewrite !exec_bind. reflexivity.
Qed.

Lemma exec_run_pr_quiet (w w' : W) (comments : list IssueComment)
    (section : str) (pr : PullRequest) :
  respond h (issues_listComments (owner env) (repo env) (number pr)) w
  = (Fulfilled comments, w') ->
  array_find (has_signature env) comments = Fulfilled None ->
  exec h (run_pr env [] section pr) w
  = {| result := Fulfilled tt;
       world := w';
       trace := [Called (issues_listComments (owner env) (repo env)
                           (number pr))] |}.
Proof.
  intros Hlist Hfind. unfold run_pr.
  rewrite exec_bind, exec_find_comment, Hlist, Hfind. reflexivity.
Qed.

Variables (w0 w1 w2 w3 : W) (pre post : list PullRequest) (pr : PullRequest).
Variables (runs : list CheckRun) (t_pre : list entry).

Hypothesis gate : is_pull_request env = true.

Hypothesis pulls :
  respond h (pulls_list (owner env) (repo env) (lit "open")
               (owner env ++ lit ":" ++ template (head_branch env))) w0
  = (Fulfilled (pre ++ pr :: post), w1).

Hypothesis checks :
  respond h (checks_listForSuite (owner env) (repo env) (check_suite_id env)
               (lit "completed")) w1
  = (Fulfilled runs, w2).

Hypothesis earlier :
  exec h (for_of pre
            (run_pr env (filter is_failed runs)
               (generate_section env (filter is_failed runs)))) w2
  = {| result := Fulfilled tt; world := w3; trace := t_pre |}.

(** When the loop comes to [pr] with the remote in state [w3], the run goes
    on with the loop body for [pr] and then with the pull requests behind it. *)
Lemma exec_run_at :
  exec h (run env) w0
  = logged (Called (pulls_list (owner env) (repo env) (lit "open")
                      (owner env ++ lit ":" ++ template (head_branch env))))
      (logged (Called (checks_listForSuite (owner env) (repo env)
                         (check_suite_id env) (lit "completed")))
         (and_then {| result := Fulfilled tt; world := w3; trace := t_pre |}
            (fun _ w =>
               and_then
                 (exec h (run_pr env (filter is_failed runs)
                            (generate_section env (filter is_failed runs)) pr)
                    w)
                 (fun _ w' =>
                    exec h (for_of post
                              (run_pr env (filter is_failed runs)
                                 (generate_section env
                                    (filter is_failed runs)))) w')))).
Proof.
  rewrite (@exec_run_loop W h env w0 w1 w2 (pre ++ pr :: post) runs
             gate pulls);
    [|now destruct pre|exact checks].
  rewrite exec_for_of_app, earlier. do 2 f_equal.
  unfold and_then. cbn [result world trace for_of].
  now rewrite exec_bind.
Qed.

Variables (w4 : W) (comments : list IssueComment).

Hypothesis listing :
  respond h (issues_listComments (owner env) (repo env) (number pr)) w3
  = (Fulfilled comments, w4).

(** C4: when the loop comes to a pull request and a comment with the
    signature is found on it, [run] next requests the update of the comment
    with that id, with the body rendered from the reconciled sections of its
    old body, and when the update is fulfilled it logs and requests the
    label 'waiting-response' for the pull request; this for every list of
    check runs, also one without failures. *)
Theorem run_updates_found_comment (comment : IssueComment) :
  array_find (has_signature env) comments = Fulfilled (Some comment) ->
  exists b rest,
    body comment = Some b /\
    occurs_in (signature env) b /\
    trace (exec h (run env) w0)
    = Called (pulls_list (owner env) (repo env) (lit "open")
                (owner env ++ lit ":" ++ template (head_branch env)))
      :: Called (checks_listForSuite (owner env) (repo env)
                   (check_suite_id env) (lit "completed"))
      :: t_pre
      ++ Called (issues_listComments (owner env) (repo env) (number pr))
      :: Called (issues_updateComment (owner env) (repo env) (id comment)
                   (generate_body env
                      (replace_or_append_section env
                         (generate_section env (filter is_failed runs))
                         (split_body env b))))
      :: match fst (respond h
                      (issues_updateComment (owner env) (repo env)
                         (id comment)
                         (generate_body env
                            (replace_or_append_section env
                               (generate_section env (filter is_failed runs))
                               (split_body env b)))) w4) with
         | Fulfilled _ =>
             Logged (lit "Updated comment")
             :: Called (issues_addLabels (owner env) (repo env) (number pr)
                          (lit "waiting-response"))
             :: rest
         | Rejected _ => []
         end.
Proof.
  intros Hfind.
  destruct (array_find_found env _ Hfind) as (_ & b & Hbody & Hinc).
  set (failed_runs := filter is_failed runs).
  set (q := issues_updateComment (owner env) (repo env) (id comment)
              (generate_body env
                 (replace_or_append_section env
                    (generate_section env failed_runs) (split_body env b)))).
  set (labelled := exec h (add_label env pr) (snd (respond h q w4))).
  exists b.
  exists (match result labelled with
          | Fulfilled _ =>
              trace (exec h (for_of post
                               (run_pr env failed_runs
                                  (generate_section env failed_runs)))
                       (world labelled))
          | Rejected _ => []
          end).
  split; [exact Hbody|]. split; [now apply includes_iff|].
  rewrite exec_run_at.
  unfold and_then at 1. cbn [result world trace logged]. do 3 f_equal.
  erewrite exec_run_pr_found by eassumption.
  fold failed_runs q. rewrite and_then_logged. cbn [trace logged]. f_equal.
  rewrite exec_await. subst labelled.
  destruct (respond h q w4) as [[x|e] w5]; unfold and_then;
    cbn [result world trace logged fst snd app]; [|reflexivity].
  rewrite exec_add_label. cbn [result world trace logged app].
  destruct (fst (respond h _ w5)); reflexivity.
Qed.

(** C5: when the loop comes to a pull request on which no comment with the
    signature is found, and no check run failed, the loop body for that pull
    request requests the listing of its comments and nothing else, and [run]
    goes on with the pull requests behind it. *)
Theorem run_quiet_without_comment_and_failures :
  array_find (has_signature env) comments = Fulfilled None ->
  filter is_failed runs = [] ->
  exec h (run_pr env [] (generate_section env []) pr) w3
  = {| result := Fulfilled tt;
       world := w4;
       trace := [Called (issues_listComments (owner env) (repo env)
                           (number pr))] |} /\
  is_mutation (issues_listComments (owner env) (repo env) (number pr))
  = false /\
  trace (exec h (run env) w0)
  = Called (pulls_list (owner env) (repo env) (lit "open")
              (owner env ++ lit ":" ++ template (head_branch env)))
    :: Called (checks_listForSuite (owner env) (repo env)
                 (check_suite_id env) (lit "completed"))
    :: t_pre
    ++ Called (issues_listComments (owner env) (repo env) (number pr))
    :: trace (exec h (for_of post (run_pr env [] (generate_section env [])))
                w4).
Proof.
  intros Hfind Hnone.
  assert (exec h (run_pr env [] (generate_section env []) pr) w3
          = {| result := Fulfilled tt;
               world := w4;
               trace := [Called (issues_listComments (owner env) (repo env)
                                   (number pr))] |}) as Hquiet
    by (erewrite exec_run_pr_quiet by eassumption; reflexivity).
  split; [exact Hquiet|]. split; [reflexivity|].
  rewrite exec_run_at, Hnone.
  unfold and_then at 1. cbn [result world trace logged]. do 3 f_equal.
  now rewrite Hquiet.
Qed.

End Iteration.

Lemma run_updates_found_comment_witness :
  exists b rest,
    body Sample.managed = Some b /\
    occurs_in (signature Sample.build) b /\
    trace (exec (Sample.github [Sample.passed]) (run Sample.build) 0)
    = [Called (pulls_list (lit "octo") (lit "demo") (lit "open")
                 (lit "octo:feature"));
       Called (checks_listForSuite (lit "octo") (lit "demo") 7
                 (lit "completed"));
       Called (issues_listComments (lit "octo") (lit "demo") 11);
       Called (issues_updateComment (lit "octo") (lit "demo") 501
                 (generate_body Sample.build
                    (replace_or_append_section Sample.build
                       (generate_section Sample.build [])
                       (split_body Sample.build b))));
       Logged (lit "Updated comment");
       Called (issues_addLabels (lit "octo") (lit "demo") 11
                 (lit "waiting-response"))]
      ++ rest.
Proof.
  refine (@run_updates_found_comment nat (Sample.github [Sample.passed])
            Sample.build 0 1 2 2 [] [{| number := 12 |}] {| number := 11 |}
            [Sample.passed] [] _ _ _ _ 3
            [Sample.blank; Sample.chatter; Sample.managed; Sample.quoting]
            _ Sample.managed _);
    vm_compute; reflexivity.
Defined.

Lemma run_quiet_without_comment_and_failures_witness :
  exec (Sample.github [Sample.passed; Sample.skipped])
    (run_pr Sample.build [] (generate_section Sample.build [])
       {| number := 12 |}) 5
  = {| result := Fulfilled tt;
       world := 6;
       trace := [Called (issues_listComments (lit "octo") (lit "demo") 12)] |}
  /\
  is_mutation (issues_listComments (lit "octo") (lit "demo") 12) = false /\
  trace (exec (Sample.github [Sample.passed; Sample.skipped])
           (run Sample.build) 0)
  = Called (pulls_list (lit "octo") (lit "demo") (lit "open")
              (lit "octo:feature"))
    :: Called (checks_listForSuite (lit "octo") (lit "demo") 7
                 (lit "completed"))
    :: trace (exec (Sample.github [Sample.passed; Sample.skipped])
                (for_of [{| number := 11 |}]
                   (run_pr Sample.build [] (generate_section Sample.build [])))
                2)
    ++ [Called (issues_listComments (lit "octo") (lit "demo") 12)].
Proof.
  refine (@run_quiet_without_comment_and_failures nat
            (Sample.github [Sample.passed; Sample.skipped])
            Sample.build 0 1 2 5 [{| number := 11 |}] [] {| number := 12 |}
            [Sample.passed; Sample.skipped] _ _ _ _ _ 6
            [Sample.chatter; Sample.blank] _ _ _);
    vm_compute; reflexivity.
Defined.

(** ** The gate, the failed check runs and what is written *)

(** C6: when [head_branch] is undefined, null or the empty string, [run]
    logs 'Invoked without pull request', sends no request to the remote,
    leaves its state as it was and is fulfilled. *)
Theorem run_without_branch {W : Type} (h : remote W) (env : Env) (w : W) :
  head_branch env = js_undefined \/
  head_branch env = js_null \/
  head_branch env = js_string [] ->
  is_pull_request env = false /\
  exec h (run env) w
  = {| result := Fulfilled tt;
       world := w;
       trace := [Logged (lit "Invoked without pull request")] |}.
Proof.
  intros Hbranch.
  assert (is_pull_request env = false) as Hgate.
  { unfold is_pull_request. destruct Hbranch as [->|[->| ->]]; reflexivity. }
  split; [exact Hgate|]. unfold run. now rewrite Hgate.
Qed.

Lemma run_without_branch_witness :
  is_pull_request Sample.detached = false /\
  exec (Sample.github [Sample.unit_tests]) (run Sample.detached) 0
  = {| result := Fulfilled tt;
       world := 0;
       trace := [Logged (lit "Invoked without pull request")] |}.
Proof.
  apply (run_without_branch (Sample.github [Sample.unit_tests])
           Sample.detached 0).
  right. right. reflexivity.
Defined.

Lemma strict_neq_iff (x : option str) (s : str) :
  strict_neq x s = true <-> x <> Some s.
Proof.
  unfold strict_neq. destruct x as [v|]; [|split; [discriminate | reflexivity]].
  destruct (list_eq_dec ascii_dec v s) as [->|Hne]; split; congruence.
Qed.

Lemma is_failed_iff (r : CheckRun) :
  is_failed r = true <->
  conclusion r <> Some (lit "success") /\ conclusion r <> Some (lit "neutral").
Proof.
  unfold is_failed. now rewrite andb_true_iff, !strict_neq_iff.
Qed.

Lemma filter_selects {A} (f : A -> bool) (P : A -> Prop) (l : list A) :
  (forall x, f x = true <-> P x) -> selects P l (filter f l).
Proof.
  intros Hf. induction l as [|x l IH]; simpl; [constructor|].
  destruct (f x) eqn:E.
  - apply selects_keep; [now apply Hf | exact IH].
  - apply selects_drop; [|exact IH]. rewrite <- Hf. congruence.
Qed.

(** C7: when the listing of the completed check runs of the suite is
    fulfilled, [find_failed_check_runs] sends that one request and returns
    the check runs of the answer whose conclusion is neither 'success' nor
    'neutral', all of them and no other, in the order of the answer. *)
Theorem find_failed_check_runs_selects {W : Type} (h : remote W) (env : Env)
    (w w' : W) (runs : list CheckRun) :
  respond h (checks_listForSuite (owner env) (repo env) (check_suite_id env)
               (lit "completed")) w
  = (Fulfilled runs, w') ->
  exists failed_runs,
    exec h (find_failed_check_runs env) w
    = {| result := Fulfilled failed_runs;
         world := w';
         trace := [Called (checks_listForSuite (owner env) (repo env)
                             (check_suite_id env) (lit "completed"))] |} /\
    selects (fun r => conclusion r <> Some (lit "success") /\
                      conclusion r <> Some (lit "neutral"))
      runs failed_runs.
Proof.
  intros Hchecks. exists (filter is_failed runs). split.
  - unfold find_failed_check_runs. cbn [bind await exec].
    now rewrite Hchecks.
  - apply filter_selects. exact is_failed_iff.
Qed.

Lemma find_failed_check_runs_selects_witness :
  exists failed_runs,
    exec (Sample.github [Sample.passed; Sample.unit_tests; Sample.skipped;
                         Sample.pending; Sample.e2e_tests])
      (find_failed_check_runs Sample.build) 0
    = {| result := Fulfilled failed_runs;
         world := 1;
         trace := [Called (checks_listForSuite (lit "octo") (lit "demo") 7
                             (lit "completed"))] |} /\
    selects (fun r => conclusion r <> Some (lit "success") /\
                      conclusion r <> Some (lit "neutral"))
      [Sample.passed; Sample.unit_tests; Sample.skipped; Sample.pending;
       Sample.e2e_tests]
      failed_runs.
Proof.
  apply (find_failed_check_runs_selects
           (Sample.github [Sample.passed; Sample.unit_tests; Sample.skipped;
                           Sample.pending; Sample.e2e_tests])
           Sample.build 0).
  reflexivity.
Defined.

Example find_failed_check_runs_sample :
  result (exec (Sample.github [Sample.passed; Sample.unit_tests;
                               Sample.skipped; Sample.pending;
                               Sample.e2e_tests])
            (find_failed_check_runs Sample.build) 0)
  = Fulfilled [Sample.unit_tests; Sample.pending; Sample.e2e_tests].
Proof. vm_compute. reflexivity. Qed.

Lemma join_cons (x : str) (l : list str) (sep : str) :
  join (x :: l) sep = x ++ concat (map (fun s => sep ++ s) l).
Proof.
  revert x. induction l as [|y l IH]; intros x.
  - simpl. now rewrite app_nil_r.
  - change (join (x :: y :: l) sep) with (x ++ sep ++ join (y :: l) sep).
    rewrite IH. simpl. now rewrite <- app_assoc.
Qed.

Lemma push_all {A B} (f : A -> B) (l : list A) (init : list B) :
  fold_left (fun strings a => strings ++ [f a]) l init = init ++ map f l.
Proof.
  revert init. induction l as [|a l IH]; intros init; simpl.
  - now rewrite app_nil_r.
  - now rewrite IH, <- app_assoc.
Qed.

Lemma generate_section_head (env : Env) (failed_runs : list CheckRun) :
  exists rest, generate_section env failed_runs = tag env ++ nl :: rest.
Proof.
  unfold generate_section. destruct (length failed_runs =? 0)%nat.
  - eexists. reflexivity.
  - rewrite push_all. eexists. reflexivity.
Qed.

Lemma replace_or_append_section_has_new (env : Env) (s : str)
    (old : list str) :
  In s (replace_or_append_section env s old).
Proof.
  rewrite replace_or_append_section_spec.
  destruct (existsb (fun o => includes o (tag env)) old) eqn:E.
  - apply existsb_exists in E. destruct E as (o & Hin & Ho).
    apply in_map_iff. exists o. now rewrite Ho.
  - apply in_or_app. right. now left.
Qed.

(** C8: every comment body that [run] writes, in an update or in a new
    comment, is the signature 'GitHub Action status on <head_commit>
    generated by comment-failure-action' followed by sections each preceded
    by the separator, a line feed, '<!-- SEPARATOR -->' and a line feed;
    one of these sections is the section generated in the run; and every
    generated section begins with the line '<!-- WORKFLOW:<workflow> -->'. *)
Theorem written_bodies_follow_grammar {W : Type} (h : remote W) (env : Env)
    (w : W) :
  Forall
    (fun e =>
       match written_body e with
       | Some b =>
           exists failed_runs sections,
             In (generate_section env failed_runs) sections /\
             b = (lit "GitHub Action status on " ++ head_commit env
                  ++ lit " generated by comment-failure-action")
                 ++ concat (map (fun s =>
                                   (nl :: lit "<!-- SEPARATOR -->" ++ [nl])
                                   ++ s) sections)
       | None => True
       end)
    (trace (exec h (run env) w)) /\
  forall failed_runs,
    exists rest,
      generate_section env failed_runs
      = (lit "<!-- WORKFLOW:" ++ workflow env ++ lit " -->") ++ nl :: rest.
Proof.
  split; [|apply generate_section_head].
  apply always_trace. unfold run.
  destruct (is_pull_request env); cbn [negb]; [|now cbn].
  unfold find_pull_requests. cbn [bind await always written_body].
  split; [exact I|]. intros prs.
  destruct (length prs =? 0)%nat; [now cbn|].
  unfold find_failed_check_runs. cbn [bind await always written_body].
  split; [exact I|]. intros runs.
  apply always_for_of. intros pr. unfold run_pr.
  apply always_bind.
  - unfold find_comment. cbn [bind await always written_body].
    split; [exact I|]. intros comments.
    now destruct (array_find (has_signature env) comments).
  - intros [comment|].
    + unfold update_comment. destruct (body comment) as [b|]; [|exact I].
      cbn [bind await always written_body core_info add_label].
      repeat split; try exact I.
      exists (filter is_failed runs). eexists. split.
      * apply replace_or_append_section_has_new.
      * unfold generate_body. apply join_cons.
    + destruct (0 <? length (filter is_failed runs))%nat; [|exact I].
      unfold create_comment.
      cbn [bind await always written_body core_info add_label].
      repeat split; try exact I.
      exists (filter is_failed runs),
        [generate_section env (filter is_failed runs)].
      split; [now left|]. unfold generate_body. apply join_cons.
Qed.

(** ** Which comment is the managed one *)

(** C9: when the listing of a pull request's comments has a comment whose
    body contains the signature, no such comment before it and another one
    behind it, [find_comment] returns the first; the loop body then writes
    one comment only, the update of that first comment. *)
Theorem find_comment_first_of_several {W : Type} (h : remote W) (env : Env)
    (w w' : W) (pr : PullRequest) (pre mid post : list IssueComment)
    (c c' : IssueComment) (b b' : str) (failed_runs : list CheckRun)
    (section : str) :
  respond h (issues_listComments (owner env) (repo env) (number pr)) w
  = (Fulfilled (pre ++ c :: mid ++ c' :: post), w') ->
  Forall (fun x => match body x with
                   | Some bx => includes bx (signature env) = false
                   | None => True
                   end) pre ->
  body c = Some b -> includes b (signature env) = true ->
  body c' = Some b' -> includes b' (signature env) = true ->
  exec h (find_comment env pr) w
  = {| result := Fulfilled (Some c);
       world := w';
       trace := [Called (issues_listComments (owner env) (repo env)
                           (number pr))] |} /\
  exists rest,
    trace (exec h (run_pr env failed_runs section pr) w)
    = Called (issues_listComments (owner env) (repo env) (number pr))
      :: Called (issues_updateComment (owner env) (repo env) (id c)
                   (generate_body env
                      (replace_or_append_section env section
                         (split_body env b))))
      :: rest /\
    Forall (fun e => written_body e = None) rest.
Proof.
  intros Hlist Hpre Hbody Hinc _ _.
  assert (array_find (has_signature env) (pre ++ c :: mid ++ c' :: post)
          = Fulfilled (Some c)) as Hfind.
  { apply array_find_first.
    - eapply Forall_impl; [|exact Hpre]. intros x Hx. cbn beta in Hx.
      rewrite has_signature_value. destruct (body x); [now rewrite Hx|].
      reflexivity.
    - now rewrite has_signature_value, Hbody, Hinc. }
  split.
  - now rewrite exec_find_comment, Hlist, Hfind.
  - erewrite exec_run_pr_found by eassumption.
    cbn [trace logged]. rewrite exec_await.
    unfold and_then. cbn [result world trace].
    destruct (fst (respond h _ w')).
    + cbn [trace logged app]. eexists. split; [reflexivity|].
      constructor; [reflexivity|]. rewrite exec_add_label.
      cbn [trace]. repeat constructor.
    + exists []. split; [reflexivity | constructor].
Qed.

Lemma find_comment_first_of_several_witness :
  exec (Sample.github []) (find_comment Sample.build {| number := 11 |}) 0
  = {| result := Fulfilled (Some Sample.managed);
       world := 1;
       trace := [Called (issues_listComments (lit "octo") (lit "demo") 11)] |}
  /\
  exists rest,
    trace (exec (Sample.github [])
             (run_pr Sample.build [] Sample.build_green {| number := 11 |}) 0)
    = Called (issues_listComments (lit "octo") (lit "demo") 11)
      :: Called (issues_updateComment (lit "octo") (lit "demo") 501
                   (generate_body Sample.build
                      (replace_or_append_section Sample.build
                         Sample.build_green
                         (split_body Sample.build
                            (generate_body Sample.build
                               [Sample.build_red; Sample.lint_green])))))
      :: rest /\
    Forall (fun e => written_body e = None) rest.
Proof.
  refine (@find_comment_first_of_several nat (Sample.github []) Sample.build
            0 1 {| number := 11 |} [Sample.blank; Sample.chatter] [] []
            Sample.managed Sample.quoting
            (generate_body Sample.build [Sample.build_red; Sample.lint_green])
            (lit "> " ++ signature Sample.build) [] Sample.build_green
            _ _ _ _ _ _).
  - vm_compute. reflexivity.
  - repeat constructor.
  - reflexivity.
  - vm_compute. reflexivity.
  - reflexivity.
  - vm_compute. reflexivity.
Defined.

Lemma array_find_skips_undefined (env : Env) (comments : list IssueComment) :
  array_find (has_signature env)
    (filter (fun c => is_defined (body c)) comments)
  = array_find (has_signature env) comments.
Proof.
  induction comments as [|c l IH]; [reflexivity|].
  cbn [filter array_find]. rewrite has_signature_value.
  destruct (body c) as [b|] eqn:E; cbn [is_defined].
  - cbn [array_find]. rewrite has_signature_value, E.
    now destruct (includes b (signature env)).
  - exact IH.
Qed.

(** C10: for every listing of comments, with or without entries whose body
    is undefined, [find_comment] is fulfilled when the listing is; a comment
    it returns has a body; and it returns what it would return for the
    listing without the entries whose body is undefined. *)
Theorem find_comment_skips_undefined_bodies {W : Type} (h : remote W)
    (env : Env) (w w' : W) (pr : PullRequest) (comments : list IssueComment) :
  respond h (issues_listComments (owner env) (repo env) (number pr)) w
  = (Fulfilled comments, w') ->
  exists found,
    exec h (find_comment env pr) w
    = {| result := Fulfilled found;
         world := w';
         trace := [Called (issues_listComments (owner env) (repo env)
                             (number pr))] |} /\
    match found with
    | Some c => body c <> None
    | None => True
    end /\
    array_find (has_signature env)
      (filter (fun c => is_defined (body c)) comments)
    = Fulfilled found.
Proof.
  intros Hlist.
  destruct (array_find (has_signature env) comments) as [found|e] eqn:Hfind.
  - exists found. split; [|split].
    + now rewrite exec_find_comment, Hlist, Hfind.
    + destruct found as [c|]; [|exact I].
      apply array_find_found in Hfind.
      destruct Hfind as (_ & b & Hb & _). congruence.
    + now rewrite array_find_skips_undefined.
  - rewrite array_find_has_signature in Hfind. discriminate.
Qed.

Lemma find_comment_skips_undefined_bodies_witness :
  exists found,
    exec (Sample.github []) (find_comment Sample.build {| number := 12 |}) 0
    = {| result := Fulfilled found;
         world := 1;
         trace := [Called (issues_listComments (lit "octo") (lit "demo") 12)]
      |} /\
    match found with
    | Some c => body c <> None
    | None => True
    end /\
    array_find (has_signature Sample.build)
      (filter (fun c => is_defined (body c)) [Sample.chatter; Sample.blank])
    = Fulfilled found.
Proof.
  apply (find_comment_skips_undefined_bodies (Sample.github []) Sample.build
           0 {| number := 12 |}).
  reflexivity.
Defined.

Example find_comment_sample :
  result (exec (Sample.github [])
            (find_comment Sample.build {| number := 11 |}) 0)
  = Fulfilled (Some Sample.managed).
Proof. vm_compute. reflexivity. Qed.

(** ** The generated section in the protocol *)

Lemma generate_section_carries_tag (env : Env) (failed_runs : list CheckRun) :
  includes (generate_section env failed_runs) (tag env) = true.
Proof.
  destruct (generate_section_head env failed_runs) as [rest ->].
  apply (includes_infix [] (tag env) (nl :: rest)).
Qed.

(** X7: reconciling the section that [generate_section] makes a second time
    changes nothing, for every list of failed runs and every old section
    list. *)
Corollary replace_or_append_section_generated (env : Env)
    (failed_runs : list CheckRun) (old : list str) :
  replace_or_append_section env (generate_section env failed_runs)
    (replace_or_append_section env (generate_section env failed_runs) old)
  = replace_or_append_section env (generate_section env failed_runs) old.
Proof.
  apply replace_or_append_section_twice, generate_section_carries_tag.
Qed.

(** Appending when no old section carries the tag. *)
Lemma replace_or_append_section_absent (env : Env) (s : str)
    (old : list str) :
  existsb (fun o => includes o (tag env)) old = false ->
  replace_or_append_section env s old = old ++ [s].
Proof.
  intros H. rewrite replace_or_append_section_spec, H.
  now rewrite substitute_absent.
Qed.

(** * Further properties *)

(** ** What [split] returns *)

Section Pieces.

Variables (c : ascii) (sep' : str).
Local Abbreviation sep := (c :: sep').

Lemma index_of_nonempty (s : str) (j : nat) :
  index_of s sep = Some j -> s <> [].
Proof. intros H ->. discriminate H. Qed.

Lemma index_of_cut (s : str) (j : nat) :
  index_of s sep = Some j ->
  s = firstn j s ++ sep ++ skipn (j + length sep) s.
Proof.
  intros H. apply index_of_Some in H. destruct H as (H & _ & _).
  apply starts_with_iff in H. destruct H as [r Hr].
  rewrite Nat.add_comm, <- skipn_skipn, Hr, skipn_exact, <- Hr.
  symmetry. apply firstn_skipn.
Qed.

(** The piece in front of the first occurrence, followed by a separator,
    has its first occurrence at its end. *)
Lemma first_piece_clean (s : str) (j : nat) :
  index_of s sep = Some j -> clean sep (firstn j s).
Proof.
  intros H. pose proof (index_of_cut s H) as Hcut.
  apply index_of_Some in H. destruct H as (_ & Hj & Hmin).
  assert (length (firstn j s) = j) as Hlen by (rewrite length_firstn; lia).
  assert (forall i, i < j ->
            starts_with (skipn i (firstn j s ++ sep)) sep = false) as Hfree.
  { intros i Hi. specialize (Hmin i Hi).
    rewrite Hcut, app_assoc, skipn_front in Hmin
      by (rewrite length_app, Hlen; lia).
    rewrite starts_with_within in Hmin; [exact Hmin|].
    rewrite length_skipn, length_app, Hlen. lia. }
  split.
  - apply includes_false. intros i.
    destruct (le_lt_dec j i) as [Hge|Hlt].
    + rewrite skipn_all2 by lia. reflexivity.
    + specialize (Hfree i Hlt).
      rewrite skipn_front in Hfree by lia.
      destruct (starts_with (skipn i (firstn j s)) sep) eqn:E;
        [|reflexivity].
      apply starts_with_iff in E. destruct E as [r Hr].
      rewrite Hr, <- app_assoc, starts_with_app in Hfree. discriminate.
  - apply index_of_Some. repeat split.
    + rewrite skipn_exact. apply starts_with_refl.
    + rewrite length_app. lia.
    + rewrite Hlen. exact Hfree.
Qed.

Lemma split_loop_cons (s : str) :
  exists p l, split_loop c sep' s = p :: l.
Proof.
  rewrite split_loop_unfold. destruct (index_of s sep); eauto.
Qed.

Lemma split_loop_pieces (s : str) :
  Forall (fun p => includes p sep = false) (split_loop c sep' s).
Proof.
  remember (length s) as n eqn:Hn. revert s Hn.
  induction n as [n IH] using lt_wf_ind. intros s ->.
  rewrite split_loop_unfold. destruct (index_of s sep) as [j|] eqn:E.
  - constructor.
    + apply (first_piece_clean s E).
    + apply (IH (length (skipn (j + length sep) s))); [|reflexivity].
      pose proof (index_of_nonempty E) as Hne.
      rewrite length_skipn. destruct s; [congruence|]. cbn [length]. lia.
  - constructor; [|constructor]. unfold includes. now rewrite E.
Qed.

Lemma join_split_loop (s : str) : join (split_loop c sep' s) sep = s.
Proof.
  remember (length s) as n eqn:Hn. revert s Hn.
  induction n as [n IH] using lt_wf_ind. intros s ->.
  rewrite split_loop_unfold. destruct (index_of s sep) as [j|] eqn:E.
  - assert (join (split_loop c sep' (skipn (j + length sep) s)) sep
            = skipn (j + length sep) s) as Hrest.
    { apply (IH (length (skipn (j + length sep) s))); [|reflexivity].
      pose proof (index_of_nonempty E) as Hne.
      rewrite length_skipn. destruct s; [congruence|]. cbn [length]. lia. }
    destruct (split_loop_cons (skipn (j + length sep) s)) as (p & l & Hpl).
    rewrite Hpl in *.
    change (join (firstn j s :: p :: l) sep)
      with (firstn j s ++ sep ++ join (p :: l) sep).
    rewrite Hrest. symmetry. apply (index_of_cut s E).
  - reflexivity.
Qed.

End Pieces.

(** ** Parsing, reconciling and rendering together *)

Section BodyProtocol.

Variable env : Env.

Lemma ends_with_suffix (p t u : str) :
  ends_with t u = true -> ends_with (p ++ t) u = true.
Proof.
  unfold ends_with. intros [r Hr]%starts_with_iff.
  rewrite rev_app_distr, Hr, <- app_assoc. apply starts_with_app.
Qed.

(** When the body does not end with the separator less its line feed, each
    piece can be joined again and cut at the same place. *)
Lemma split_pieces_clean (s : str) :
  ends_with s separator_stem = false ->
  Forall (clean separator) (split s separator).
Proof.
  unfold split, separator at 2.
  remember (length s) as n eqn:Hn. revert s Hn.
  induction n as [n IH] using lt_wf_ind. intros s -> Hend.
  rewrite split_loop_unfold.
  fold separator.
  destruct (index_of s separator) as [j|] eqn:E.
  - constructor.
    + exact (@first_piece_clean nl (lit "<!-- SEPARATOR -->" ++ [nl]) s j E).
    + apply (IH (length (skipn (j + length separator) s))); [|reflexivity|].
      * pose proof (@index_of_nonempty nl (lit "<!-- SEPARATOR -->" ++ [nl])
                      s j E) as Hne.
        rewrite length_skipn. change (length separator) with 20.
        destruct s; [congruence|]. cbn [length]. lia.
      * destruct (ends_with (skipn (j + length separator) s) separator_stem)
          eqn:E'; [|reflexivity].
        rewrite <- (firstn_skipn (j + length separator) s) in Hend.
        rewrite ends_with_suffix in Hend by assumption. discriminate.
  - constructor; [|constructor]. apply separator_clean; [|assumption].
    unfold includes. now rewrite E.
Qed.

Lemma replace_or_append_section_from (s x : str) (old : list str) :
  In x (replace_or_append_section env s old) -> x = s \/ In x old.
Proof.
  rewrite replace_or_append_section_spec.
  assert (In x (map (fun o => if includes o (tag env) then s else o) old) ->
          x = s \/ In x old) as Hmap.
  { intros (o & Ho & Hin)%in_map_iff.
    destruct (includes o (tag env)); subst; auto. }
  destruct (existsb _ old); [exact Hmap|].
  intros [H|[<-|[]]]%in_app_or; auto.
Qed.

Lemma split_body_from (b x : str) :
  In x (split_body env b) ->
  In x (split b separator) /\ includes x (signature env) = false.
Proof.
  unfold split_body. intros [Hin Hx]%filter_In. split; [assumption|].
  now destruct (includes x (signature env)).
Qed.

Lemma reparse_reconciled (s b : str) :
  includes (signature env) separator = false ->
  includes s separator = false ->
  includes s (signature env) = false ->
  ends_with s separator_stem = false ->
  ends_with b separator_stem = false ->
  split_body env
    (generate_body env (replace_or_append_section env s (split_body env b)))
  = replace_or_append_section env s (split_body env b).
Proof.
  intros Hsig Hs1 Hs2 Hs3 Hb.
  pose proof (split_pieces_clean b Hb) as Hclean.
  rewrite Forall_forall in Hclean.
  set (new_sections := replace_or_append_section env s (split_body env b)).
  assert (forall x, In x new_sections ->
            clean separator x /\ includes x (signature env) = false) as Hnew.
  { intros x [->|Hx]%replace_or_append_section_from.
    - split; [now apply separator_clean | assumption].
    - apply split_body_from in Hx. destruct Hx as [Hin Hx]. auto. }
  unfold split_body, generate_body.
  change ([signature env] ++ new_sections) with (signature env :: new_sections).
  unfold separator at 1 2. rewrite split_join.
  - simpl. rewrite includes_refl. simpl. apply filter_all.
    apply Forall_forall. intros x Hx. destruct (Hnew x Hx) as [_ ->].
    reflexivity.
  - constructor.
    + apply separator_clean; [assumption|].
      apply signature_not_ends_with_stem.
    + apply Forall_forall. intros x Hx. now apply Hnew.
Qed.

End BodyProtocol.

(** X1: the sections that [split_body] returns hold neither the separator
    nor the signature. *)
Theorem split_body_sections_free (env : Env) (body : str) :
  Forall (fun s => includes s separator = false /\
                   includes s (signature env) = false)
    (split_body env body).
Proof.
  apply Forall_forall. intros x [Hin Hx]%split_body_from.
  split; [|assumption].
  pose proof (split_loop_pieces nl (lit "<!-- SEPARATOR -->" ++ [nl]) body)
    as Hfree.
  rewrite Forall_forall in Hfree. now apply Hfree.
Qed.

(** X2: a body whose first piece is the signature, and which has the
    signature in no other piece, is rendered again from its parsed sections. *)
Theorem generate_body_split_body (env : Env) (body : str)
    (sections : list str) :
  split body separator = signature env :: sections ->
  Forall (fun s => includes s (signature env) = false) sections ->
  generate_body env (split_body env body) = body.
Proof.
  intros Hsplit Hfree. unfold split_body, generate_body. rewrite Hsplit.
  cbn [filter]. rewrite includes_refl. cbn [negb].
  rewrite filter_all.
  - change ([signature env] ++ sections) with (signature env :: sections).
    rewrite <- Hsplit. unfold split, separator at 1 2.
    apply join_split_loop.
  - eapply Forall_impl; [|exact Hfree]. now intros s ->.
Qed.

Lemma generate_body_split_body_witness :
  generate_body Sample.build
    (split_body Sample.build
       (lit "GitHub Action status on abc123 generated by "
        ++ lit "comment-failure-action" ++ separator ++ lit "first"
        ++ separator ++ separator ++ lit "last" ++ separator_stem))
  = lit "GitHub Action status on abc123 generated by "
    ++ lit "comment-failure-action" ++ separator ++ lit "first"
    ++ separator ++ separator ++ lit "last" ++ separator_stem.
Proof.
  apply (@generate_body_split_body Sample.build _
           [lit "first"; []; lit "last" ++ separator_stem]).
  - vm_compute. reflexivity.
  - repeat constructor.
Defined.

(** X3: after an update, parsing the body that was written gives the
    reconciled sections: the next invocation sees what this one left. *)
Theorem update_then_parse (env : Env) (s b : str) :
  includes (signature env) separator = false ->
  includes s separator = false ->
  includes s (signature env) = false ->
  ends_with s separator_stem = false ->
  ends_with b separator_stem = false ->
  split_body env
    (generate_body env (replace_or_append_section env s (split_body env b)))
  = replace_or_append_section env s (split_body env b).
Proof. apply reparse_reconciled. Qed.

Lemma update_then_parse_witness :
  split_body Sample.build
    (generate_body Sample.build
       (replace_or_append_section Sample.build Sample.build_green
          (split_body Sample.build
             (generate_body Sample.lint [Sample.lint_green]))))
  = replace_or_append_section Sample.build Sample.build_green
      (split_body Sample.build
         (generate_body Sample.lint [Sample.lint_green])).
Proof.
  apply (@update_then_parse Sample.build); vm_compute; reflexivity.
Defined.

(** X4: updating a comment a second time with the same section writes the
    same body again. *)
Theorem update_twice_same_body (env : Env) (s b : str) :
  includes (signature env) separator = false ->
  includes s separator = false ->
  includes s (signature env) = false ->
  ends_with s separator_stem = false ->
  ends_with b separator_stem = false ->
  includes s (tag env) = true ->
  generate_body env
    (replace_or_append_section env s
       (split_body env
          (generate_body env
             (replace_or_append_section env s (split_body env b)))))
  = generate_body env (replace_or_append_section env s (split_body env b)).
Proof.
  intros Hsig Hs1 Hs2 Hs3 Hb Htag.
  rewrite reparse_reconciled by assumption.
  now rewrite replace_or_append_section_twice.
Qed.

Lemma update_twice_same_body_witness :
  generate_body Sample.build
    (replace_or_append_section Sample.build Sample.build_green
       (split_body Sample.build
          (generate_body Sample.build
             (replace_or_append_section Sample.build Sample.build_green
                (split_body Sample.build
                   (generate_body Sample.build
                      [Sample.build_red; Sample.lint_green]))))))
  = generate_body Sample.build
      (replace_or_append_section Sample.build Sample.build_green
         (split_body Sample.build
            (generate_body Sample.build
               [Sample.build_red; Sample.lint_green]))).
Proof.
  apply (@update_twice_same_body Sample.build); vm_compute; reflexivity.
Defined.

(** ** More on reconciling and on the generated section *)

(** X5: a section that does not carry the invocation's tag stays where it
    is. *)
Theorem replace_or_append_section_keeps_others (env : Env) (s o : str)
    (old : list str) (i : nat) :
  nth_error old i = Some o ->
  includes o (tag env) = false ->
  nth_error (replace_or_append_section env s old) i = Some o.
Proof.
  intros Hi Ho. rewrite replace_or_append_section_spec.
  assert (nth_error (map (fun o => if includes o (tag env) then s else o) old)
            i = Some o) as Hmap.
  { rewrite nth_error_map, Hi. simpl. now rewrite Ho. }
  destruct (existsb _ old); [exact Hmap|].
  rewrite nth_error_app1; [exact Hmap|].
  rewrite length_map. apply nth_error_Some. congruence.
Qed.

Lemma replace_or_append_section_keeps_others_witness :
  nth_error
    (replace_or_append_section Sample.build Sample.build_green
       [Sample.build_red; Sample.lint_green; Sample.build_red']) 1
  = Some Sample.lint_green.
Proof.
  apply (@replace_or_append_section_keeps_others Sample.build);
    vm_compute; reflexivity.
Defined.

(** X6: when no old section carries the invocation's tag, the new section
    goes to the end and the old sections stay as they are. *)
Theorem replace_or_append_section_appends (env : Env) (s : str)
    (old : list str) :
  Forall (fun o => includes o (tag env) = false) old ->
  replace_or_append_section env s old = old ++ [s].
Proof.
  intros Hold. apply replace_or_append_section_absent.
  induction Hold as [|o l Ho _ IH]; simpl; [reflexivity|].
  now rewrite Ho, IH.
Qed.

Lemma replace_or_append_section_appends_witness :
  replace_or_append_section Sample.build Sample.build_red
    [Sample.lint_green; lit "free text"]
  = [Sample.lint_green; lit "free text"] ++ [Sample.build_red].
Proof.
  apply (@replace_or_append_section_appends Sample.build).
  repeat constructor.
Defined.

(** X8: the section for a workflow: the tag line, the heading, and then
    either the line that no job failed or the table with one row for each
    failed run, in their order. *)
Theorem generate_section_layout (env : Env) (failed_runs : list CheckRun) :
  generate_section env failed_runs
  = (lit "<!-- WORKFLOW:" ++ workflow env ++ lit " -->")
    ++ nl :: (lit "### " ++ workflow env)
    ++ nl :: match failed_runs with
             | [] => lit "No jobs failed :+1:"
             | _ :: _ =>
                 lit "| job | url |"
                 ++ nl :: lit "|-----|-----|"
                 ++ concat (map (fun r =>
                                   nl :: lit "| " ++ output_title r
                                   ++ lit " | " ++ html_url r ++ lit " |")
                              failed_runs)
             end.
Proof.
  unfold generate_section. destruct failed_runs as [|r l]; [reflexivity|].
  cbn [length Nat.eqb]. rewrite push_all. cbn [app]. rewrite join_cons.
  cbn [map concat]. rewrite map_map. fold (tag env). f_equal.
Qed.

(** ** What [run] sends *)

Section Sending.

Context {W : Type} (h : remote W) (env : Env).

Lemma always_run_pr (P : entry -> Prop) (failed_runs : list CheckRun)
    (section : str) (pr : PullRequest) :
  P (Called (issues_listComments (owner env) (repo env) (number pr))) ->
  P (Logged (lit "Updated comment")) ->
  P (Logged (lit "Created comment")) ->
  P (Called (issues_addLabels (owner env) (repo env) (number pr)
               (lit "waiting-response"))) ->
  (forall comment_id old_sections,
      P (Called (issues_updateComment (owner env) (repo env) comment_id
                   (generate_body env
                      (replace_or_append_section env section
                         old_sections))))) ->
  (failed_runs <> [] ->
   P (Called (issues_createComment (owner env) (repo env) (number pr)
                (generate_body env [section])))) ->
  always P (run_pr env failed_runs section pr).
Proof.
  intros Hlist Hupdated Hcreated Hlabel Hupdate Hcreate. unfold run_pr.
  apply always_bind.
  - unfold find_comment. cbn [bind await always].
    split; [exact Hlist|]. intros comments.
    now destruct (array_find (has_signature env) comments).
  - intros [comment|].
    + unfold update_comment. destruct (body comment) as [b|]; [|exact I].
      cbn [bind await always core_info add_label]. auto.
    + destruct failed_runs as [|r l]; [exact I|].
      cbn [length Nat.ltb Nat.leb]. unfold create_comment.
      cbn [bind await always core_info add_label].
      repeat split; auto. apply Hcreate. discriminate.
Qed.

Lemma run_entries (w : W) : Forall (run_entry env) (trace (exec h (run env) w)).
Proof.
  apply always_trace. unfold run.
  destruct (is_pull_request env); cbn [negb].
  - unfold find_pull_requests. cbn [bind await always].
    split; [constructor|]. intros prs.
    destruct (length prs =? 0)%nat.
    + cbn. split; [constructor | exact I].
    + unfold find_failed_check_runs. cbn [bind await always].
      split; [constructor|]. intros runs.
      apply always_for_of. intros pr. apply always_run_pr; constructor.
  - cbn. split; [constructor | exact I].
Qed.

End Sending.

(** X9: [run] addresses no repository other than the one of its environment. *)
Theorem run_stays_in_repository {W : Type} (h : remote W) (env : Env)
    (w : W) :
  Forall (fun e => match e with
                   | Called q => repository q = (owner env, repo env)
                   | Logged _ => True
                   end)
    (trace (exec h (run env) w)).
Proof.
  eapply Forall_impl; [|apply run_entries].
  intros e He. destruct He; reflexivity.
Qed.

(** X10: every comment body that [run] writes contains the signature:
    [find_comment] of a later invocation for the same commit takes a comment
    with that body for the managed one. *)
Theorem run_writes_recognised_bodies {W : Type} (h : remote W) (env : Env)
    (w : W) :
  Forall (fun e => match written_body e with
                   | Some b =>
                       forall comment_id,
                         has_signature env
                           {| id := comment_id; body := Some b |}
                         = Fulfilled true
                   | None => True
                   end)
    (trace (exec h (run env) w)).
Proof.
  eapply Forall_impl; [|apply run_entries].
  intros e He. destruct He; cbn [written_body]; try exact I;
    intros ?; rewrite has_signature_value; cbn [body]; f_equal;
    unfold generate_body; cbn [app]; rewrite join_cons;
    apply (includes_infix [] (signature env)).
Qed.

(** X11: every label [run] asks for is 'waiting-response', and every listing
    of pull requests asks for the open ones whose head is the owner and the
    branch of the environment. *)
Theorem run_fixed_arguments {W : Type} (h : remote W) (env : Env) (w : W) :
  Forall (fun e => match e with
                   | Called (issues_addLabels _ _ _ labels) =>
                       labels = lit "waiting-response"
                   | Called (pulls_list _ _ state head) =>
                       state = lit "open" /\
                       head = owner env ++ lit ":"
                              ++ template (head_branch env)
                   | Called (checks_listForSuite _ _ suite status) =>
                       suite = check_suite_id env /\
                       status = lit "completed"
                   | _ => True
                   end)
    (trace (exec h (run env) w)).
Proof.
  eapply Forall_impl; [|apply run_entries].
  intros e He. destruct He; auto.
Qed.

(** ** The other ways through [run] *)

Lemma exec_run_no_pulls {W : Type} (h : remote W) (env : Env)
    (w w1 : W) :
  is_pull_request env = true ->
  respond h (pulls_list (owner env) (repo env) (lit "open")
               (owner env ++ lit ":" ++ template (head_branch env))) w
  = (Fulfilled [], w1) ->
  exec h (run env) w
  = {| result := Fulfilled tt;
       world := w1;
       trace := [Called (pulls_list (owner env) (repo env) (lit "open")
                           (owner env ++ lit ":"
                            ++ template (head_branch env)));
                 Logged (lit "No open pull requests found with "
                         ++ template (head_branch env) ++ lit " branch")] |}.
Proof.
  intros Hgate Hpulls. unfold run. rewrite Hgate. cbn [negb].
  unfold find_pull_requests. cbn [bind await exec]. now rewrite Hpulls.
Qed.

(** X12: with a branch but no open pull request, [run] sends the listing of
    pull requests, logs that there is none and is fulfilled. *)
Theorem run_without_open_pull_requests {W : Type} (h : remote W) (env : Env)
    (w w1 : W) :
  is_pull_request env = true ->
  respond h (pulls_list (owner env) (repo env) (lit "open")
               (owner env ++ lit ":" ++ template (head_branch env))) w
  = (Fulfilled [], w1) ->
  exec h (run env) w
  = {| result := Fulfilled tt;
       world := w1;
       trace := [Called (pulls_list (owner env) (repo env) (lit "open")
                           (owner env ++ lit ":"
                            ++ template (head_branch env)));
                 Logged (lit "No open pull requests found with "
                         ++ template (head_branch env) ++ lit " branch")] |}.
Proof. apply exec_run_no_pulls. Qed.

Lemma run_without_open_pull_requests_witness :
  exec Outage.deserted (run Sample.build) 0
  = {| result := Fulfilled tt;
       world := 1;
       trace := [Called (pulls_list (lit "octo") (lit "demo") (lit "open")
                           (lit "octo:feature"));
                 Logged (lit "No open pull requests found with feature branch")]
    |}.
Proof.
  apply (@run_without_open_pull_requests nat Outage.deserted Sample.build 0 1);
    vm_compute; reflexivity.
Defined.

(** X13: a rejected listing of the pull requests rejects [run] with the same
    error before anything else is sent. *)
Theorem run_rejected_pulls {W : Type} (h : remote W) (env : Env) (w w1 : W)
    (e : error) :
  is_pull_request env = true ->
  respond h (pulls_list (owner env) (repo env) (lit "open")
               (owner env ++ lit ":" ++ template (head_branch env))) w
  = (Rejected e, w1) ->
  exec h (run env) w
  = {| result := Rejected e;
       world := w1;
       trace := [Called (pulls_list (owner env) (repo env) (lit "open")
                           (owner env ++ lit ":"
                            ++ template (head_branch env)))] |}.
Proof.
  intros Hgate Hpulls. unfold run. rewrite Hgate. cbn [negb].
  unfold find_pull_requests. cbn [bind await exec]. now rewrite Hpulls.
Qed.

Lemma run_rejected_pulls_witness :
  exec (Outage.rejecting Outage.is_pulls []) (run Sample.build) 0
  = {| result := Rejected Outage.http_error;
       world := 1;
       trace := [Called (pulls_list (lit "octo") (lit "demo") (lit "open")
                           (lit "octo:feature"))] |}.
Proof.
  apply (@run_rejected_pulls nat (Outage.rejecting Outage.is_pulls [])
           Sample.build 0 1 Outage.http_error);
    vm_compute; reflexivity.
Defined.

(** X14: a rejected listing of the check runs rejects [run] with the same
    error before any pull request is looked at. *)
Theorem run_rejected_checks {W : Type} (h : remote W) (env : Env)
    (w w1 w2 : W) (pr : PullRequest) (prs : list PullRequest) (e : error) :
  is_pull_request env = true ->
  respond h (pulls_list (owner env) (repo env) (lit "open")
               (owner env ++ lit ":" ++ template (head_branch env))) w
  = (Fulfilled (pr :: prs), w1) ->
  respond h (checks_listForSuite (owner env) (repo env) (check_suite_id env)
               (lit "completed")) w1
  = (Rejected e, w2) ->
  exec h (run env) w
  = {| result := Rejected e;
       world := w2;
       trace := [Called (pulls_list (owner env) (repo env) (lit "open")
                           (owner env ++ lit ":"
                            ++ template (head_branch env)));
                 Called (checks_listForSuite (owner env) (repo env)
                           (check_suite_id env) (lit "completed"))] |}.
Proof.
  intros Hgate Hpulls Hchecks. unfold run. rewrite Hgate. cbn [negb].
  unfold find_pull_requests. cbn [bind await exec]. rewrite Hpulls.
  cbn [length Nat.eqb]. unfold find_failed_check_runs.
  cbn [bind await exec]. now rewrite Hchecks.
Qed.

Lemma run_rejected_checks_witness :
  exec (Outage.rejecting Outage.is_checks []) (run Sample.build) 0
  = {| result := Rejected Outage.http_error;
       world := 2;
       trace := [Called (pulls_list (lit "octo") (lit "demo") (lit "open")
                           (lit "octo:feature"));
                 Called (checks_listForSuite (lit "octo") (lit "demo") 7
                           (lit "completed"))] |}.
Proof.
  apply (@run_rejected_checks nat (Outage.rejecting Outage.is_checks [])
           Sample.build 0 1 2 {| number := 11 |} [{| number := 12 |}]
           Outage.http_error);
    vm_compute; reflexivity.
Defined.

(** X15: when no check run of the suite failed, [run] creates no comment on
    any pull request. *)
Theorem run_never_creates_without_failures {W : Type} (h : remote W)
    (env : Env) (w w1 w2 : W) (prs : list PullRequest)
    (runs : list CheckRun) :
  is_pull_request env = true ->
  respond h (pulls_list (owner env) (repo env) (lit "open")
               (owner env ++ lit ":" ++ template (head_branch env))) w
  = (Fulfilled prs, w1) ->
  respond h (checks_listForSuite (owner env) (repo env) (check_suite_id env)
               (lit "completed")) w1
  = (Fulfilled runs, w2) ->
  filter is_failed runs = [] ->
  Forall (fun e => match e with
                   | Called (issues_createComment _ _ _ _) => False
                   | _ => True
                   end)
    (trace (exec h (run env) w)).
Proof.
  intros Hgate Hpulls Hchecks Hnone.
  destruct prs as [|pr prs].
  - rewrite (exec_run_no_pulls h env w Hgate Hpulls).
    cbn [trace]. repeat constructor.
  - rewrite (@exec_run_loop W h env w w1 w2 (pr :: prs) runs Hgate Hpulls);
      [|discriminate|exact Hchecks].
    rewrite Hnone. cbn [trace logged]. do 2 (constructor; [exact I|]).
    apply always_trace, always_for_of. intros p.
    apply always_run_pr; try exact I; [intros; exact I | congruence].
Qed.

Lemma run_never_creates_without_failures_witness :
  Forall (fun e => match e with
                   | Called (issues_createComment _ _ _ _) => False
                   | _ => True
                   end)
    (trace (exec (Sample.github [Sample.passed; Sample.skipped])
              (run Sample.build) 0)).
Proof.
  apply (@run_never_creates_without_failures nat
           (Sample.github [Sample.passed; Sample.skipped]) Sample.build
           0 1 2 [{| number := 11 |}; {| number := 12 |}]
           [Sample.passed; Sample.skipped]);
    vm_compute; reflexivity.
Defined.

Lemma find_none_iff {A} (f : A -> bool) (l : list A) :
  find f l = None <-> forall x, In x l -> f x = false.
Proof.
  split; [apply find_none|].
  induction l as [|x l IH]; intros H; simpl; [reflexivity|].
  rewrite (H x) by now left. apply IH. intros y Hy. apply H. now right.
Qed.

(** X16: [find_comment] returns nothing exactly when no listed comment has a
    body in which the signature occurs. *)
Theorem find_comment_none_iff {W : Type} (h : remote W) (env : Env)
    (w w' : W) (pr : PullRequest) (comments : list IssueComment) :
  respond h (issues_listComments (owner env) (repo env) (number pr)) w
  = (Fulfilled comments, w') ->
  (result (exec h (find_comment env pr) w) = Fulfilled None <->
   forall c b, In c comments -> body c = Some b ->
               ~ occurs_in (signature env) b).
Proof.
  intros Hlist. rewrite exec_find_comment, Hlist. cbn [result].
  rewrite array_find_has_signature. split.
  - intros [= Hnone] c b Hin Hb Hocc.
    rewrite find_none_iff in Hnone. specialize (Hnone c Hin).
    rewrite Hb in Hnone. apply includes_iff in Hocc. congruence.
  - intros Hnone. f_equal. apply find_none_iff. intros c Hin.
    destruct (body c) as [b|] eqn:Hb; [|reflexivity].
    destruct (includes b (signature env)) eqn:E; [|reflexivity].
    exfalso. apply (Hnone c b Hin Hb). now apply includes_iff.
Qed.

Lemma find_comment_none_iff_witness :
  result (exec (Sample.github [])
            (find_comment Sample.build {| number := 12 |}) 0)
  = Fulfilled None <->
  forall c b, In c [Sample.chatter; Sample.blank] -> body c = Some b ->
              ~ occurs_in (signature Sample.build) b.
Proof.
  apply (@find_comment_none_iff nat (Sample.github []) Sample.build 0 1
           {| number := 12 |} [Sample.chatter; Sample.blank]).
  reflexivity.
Defined.

(** ** Creating a comment, and an update that fails *)

Section Writing.

Context {W : Type} (h : remote W) (env : Env).

Lemma exec_run_pr_created (w w' : W) (comments : list IssueComment)
    (r : CheckRun) (failed_runs : list CheckRun) (section : str)
    (pr : PullRequest) :
  respond h (issues_listComments (owner env) (repo env) (number pr)) w
  = (Fulfilled comments, w') ->
  array_find (has_signature env) comments = Fulfilled None ->
  exec h (run_pr env (r :: failed_runs) section pr) w
  = logged (Called (issues_listComments (owner env) (repo env) (number pr)))
      (and_then
         (exec h (await (issues_createComment (owner env) (repo env)
                           (number pr) (generate_body env [section]))) w')
         (fun _ w'' =>
            logged (Logged (lit "Created comment"))
              (exec h (add_label env pr) w''))).
Proof.
  intros Hlist Hfind. unfold run_pr.
  rewrite exec_bind, exec_find_comment, Hlist, Hfind.
  unfold and_then at 1. cbn [result world trace length Nat.ltb Nat.leb].
  unfold create_comment. rewrite !exec_bind. reflexivity.
Qed.

Variables (w0 w1 w2 w3 w4 : W) (pre post : list PullRequest).
Variables (pr : PullRequest) (runs : list CheckRun) (t_pre : list entry).
Variable comments : list IssueComment.

Hypothesis gate : is_pull_request env = true.

Hypothesis pulls :
  respond h (pulls_list (owner env) (repo env) (lit "open")
               (owner env ++ lit ":" ++ template (head_branch env))) w0
  = (Fulfilled (pre ++ pr :: post), w1).

Hypothesis checks :
  respond h (checks_listForSuite (owner env) (repo env) (check_suite_id env)
               (lit "completed")) w1
  = (Fulfilled runs, w2).

Hypothesis earlier :
  exec h (for_of pre
            (run_pr env (filter is_failed runs)
               (generate_section env (filter is_failed runs)))) w2
  = {| result := Fulfilled tt; world := w3; trace := t_pre |}.

Hypothesis listing :
  respond h (issues_listComments (owner env) (repo env) (number pr)) w3
  = (Fulfilled comments, w4).

(** X17: when the loop comes to a pull request without a comment with the
    signature and some check run failed, [run] next requests a new comment
    on the pull request whose body is the signature and the generated
    section, and when that is fulfilled it logs and requests the label. *)
Theorem run_creates_comment_on_failures :
  array_find (has_signature env) comments = Fulfilled None ->
  filter is_failed runs <> [] ->
  exists rest,
    trace (exec h (run env) w0)
    = Called (pulls_list (owner env) (repo env) (lit "open")
                (owner env ++ lit ":" ++ template (head_branch env)))
      :: Called (checks_listForSuite (owner env) (repo env)
                   (check_suite_id env) (lit "completed"))
      :: t_pre
      ++ Called (issues_listComments (owner env) (repo env) (number pr))
      :: Called (issues_createComment (owner env) (repo env) (number pr)
                   (signature env ++ separator
                    ++ generate_section env (filter is_failed runs)))
      :: match fst (respond h
                      (issues_createComment (owner env) (repo env)
                         (number pr)
                         (signature env ++ separator
                          ++ generate_section env (filter is_failed runs)))
                      w4) with
         | Fulfilled _ =>
             Logged (lit "Created comment")
             :: Called (issues_addLabels (owner env) (repo env) (number pr)
                          (lit "waiting-response"))
             :: rest
         | Rejected _ => []
         end.
Proof.
  intros Hfind Hsome.
  set (failed_runs := filter is_failed runs) in *.
  set (q := issues_createComment (owner env) (repo env) (number pr)
              (signature env ++ separator
               ++ generate_section env failed_runs)).
  set (labelled := exec h (add_label env pr) (snd (respond h q w4))).
  exists (match result labelled with
          | Fulfilled _ =>
              trace (exec h (for_of post
                               (run_pr env failed_runs
                                  (generate_section env failed_runs)))
                       (world labelled))
          | Rejected _ => []
          end).
  rewrite (@exec_run_at W h env w0 w1 w2 w3 pre post pr runs t_pre
             gate pulls checks earlier).
  unfold and_then at 1. cbn [result world trace logged]. do 3 f_equal.
  fold failed_runs. destruct failed_runs as [|r l] eqn:Hfailed;
    [congruence|].
  erewrite exec_run_pr_created by eassumption.
  change (generate_body env [generate_section env (r :: l)])
    with (signature env ++ separator ++ generate_section env (r :: l)).
  fold q. rewrite and_then_logged. cbn [trace logged]. f_equal.
  rewrite exec_await. subst labelled.
  destruct (respond h q w4) as [[x|e] w5]; unfold and_then;
    cbn [result world trace logged fst snd app]; [|reflexivity].
  rewrite exec_add_label. cbn [result world trace logged app].
  destruct (fst (respond h _ w5)); reflexivity.
Qed.

(** X18: when the update of the managed comment is rejected, [run] is
    rejected with the same error right there: no label is requested and the
    pull requests behind are not looked at. *)
Theorem run_aborts_on_rejected_update (comment : IssueComment) (b : str)
    (e : error) (w5 : W) :
  array_find (has_signature env) comments = Fulfilled (Some comment) ->
  body comment = Some b ->
  respond h (issues_updateComment (owner env) (repo env) (id comment)
               (generate_body env
                  (replace_or_append_section env
                     (generate_section env (filter is_failed runs))
                     (split_body env b)))) w4
  = (Rejected e, w5) ->
  exec h (run env) w0
  = {| result := Rejected e;
       world := w5;
       trace :=
         Called (pulls_list (owner env) (repo env) (lit "open")
                   (owner env ++ lit ":" ++ template (head_branch env)))
         :: Called (checks_listForSuite (owner env) (repo env)
                      (check_suite_id env) (lit "completed"))
         :: t_pre
         ++ [Called (issues_listComments (owner env) (repo env) (number pr));
             Called (issues_updateComment (owner env) (repo env)
                       (id comment)
                       (generate_body env
                          (replace_or_append_section env
                             (generate_section env (filter is_failed runs))
                             (split_body env b))))] |}.
Proof.
  intros Hfind Hbody Hrejected.
  rewrite (@exec_run_at W h env w0 w1 w2 w3 pre post pr runs t_pre
             gate pulls checks earlier).
  unfold and_then at 1. cbn [result world trace logged].
  erewrite exec_run_pr_found by eassumption.
  rewrite exec_await, Hrejected. reflexivity.
Qed.

End Writing.

Lemma run_creates_comment_on_failures_witness :
  exists rest,
    trace (exec (Sample.github [Sample.passed; Sample.unit_tests])
             (run Sample.build) 0)
    = Called (pulls_list (lit "octo") (lit "demo") (lit "open")
                (lit "octo:feature"))
      :: Called (checks_listForSuite (lit "octo") (lit "demo") 7
                   (lit "completed"))
      :: trace (exec (Sample.github [Sample.passed; Sample.unit_tests])
                  (for_of [{| number := 11 |}]
                     (run_pr Sample.build [Sample.unit_tests]
                        Sample.build_red)) 2)
      ++ [Called (issues_listComments (lit "octo") (lit "demo") 12);
          Called (issues_createComment (lit "octo") (lit "demo") 12
                    (signature Sample.build ++ separator
                     ++ Sample.build_red));
          Logged (lit "Created comment");
          Called (issues_addLabels (lit "octo") (lit "demo") 12
                    (lit "waiting-response"))]
      ++ rest.
Proof.
  refine (@run_creates_comment_on_failures nat
            (Sample.github [Sample.passed; Sample.unit_tests]) Sample.build
            0 1 2 5 6 [{| number := 11 |}] [] {| number := 12 |}
            [Sample.passed; Sample.unit_tests] _
            [Sample.chatter; Sample.blank] _ _ _ _ _ _ _);
    try (vm_compute; reflexivity).
  vm_compute. discriminate.
Defined.

Lemma run_aborts_on_rejected_update_witness :
  exec (Outage.rejecting Outage.is_update [Sample.unit_tests])
    (run Sample.build) 0
  = {| result := Rejected Outage.http_error;
       world := 4;
       trace :=
         [Called (pulls_list (lit "octo") (lit "demo") (lit "open")
                    (lit "octo:feature"));
          Called (checks_listForSuite (lit "octo") (lit "demo") 7
                    (lit "completed"));
          Called (issues_listComments (lit "octo") (lit "demo") 11);
          Called (issues_updateComment (lit "octo") (lit "demo") 501
                    (generate_body Sample.build
                       (replace_or_append_section Sample.build
                          Sample.build_red
                          (split_body Sample.build
                             (generate_body Sample.build
                                [Sample.build_red; Sample.lint_green])))))]
    |}.
Proof.
  refine (@run_aborts_on_rejected_update nat
            (Outage.rejecting Outage.is_update [Sample.unit_tests])
            Sample.build 0 1 2 2 3 [] [{| number := 12 |}]
            {| number := 11 |} [Sample.unit_tests] []
            [Sample.blank; Sample.chatter; Sample.managed; Sample.quoting]
            _ _ _ _ _ Sample.managed
            (generate_body Sample.build [Sample.build_red; Sample.lint_green])
            Outage.http_error 4 _ _ _);
    vm_compute; reflexivity.
Defined.

(** ** Errors come from the remote only *)

Section Throwing.

Context {W : Type} (h : remote W).

Lemma never_throws_bind {A B} (p : prog A) (f : A -> prog B) :
  never_throws p -> (forall a, never_throws (f a)) -> never_throws (bind p f).
Proof.
  intros Hp Hf. induction p as [r|e|m k IH|q k IH]; simpl in *; auto.
Qed.

Lemma never_throws_for_of {A} (l : list A) (body : A -> prog unit) :
  (forall x, never_throws (body x)) -> never_throws (for_of l body).
Proof.
  intros Hb. induction l as [|x l IH]; simpl; [exact I|].
  apply never_throws_bind; auto.
Qed.

Lemma never_throws_fulfilled {R} (p : prog R) (w : W) :
  never_throws p ->
  (forall q w', exists x, fst (respond h q w') = Fulfilled x) ->
  exists r, result (exec h p w) = Fulfilled r.
Proof.
  intros Hp Hremote. revert w.
  induction p as [r|e|m k IH|q k IH]; intros w; simpl in *.
  - eauto.
  - contradiction.
  - apply IH, Hp.
  - destruct (Hremote q w) as [x Hx].
    destruct (respond h q w) as [[y|e] w']; simpl in *; [|discriminate].
    apply IH, Hp.
Qed.

Lemma never_throws_run_pr (env : Env) (failed_runs : list CheckRun)
    (section : str) (pr : PullRequest) :
  never_throws (run_pr env failed_runs section pr).
Proof.
  unfold run_pr, find_comment. cbn [bind await never_throws].
  intros comments. rewrite array_find_has_signature. cbn [lift bind].
  destruct (find _ comments) as [comment|] eqn:Hfind.
  - apply find_some in Hfind. destruct Hfind as [_ Hbody].
    unfold update_comment. destruct (body comment); [|discriminate].
    cbn. auto.
  - destruct (0 <? length failed_runs)%nat; cbn; auto.
Qed.

Lemma never_throws_run (env : Env) : never_throws (run env).
Proof.
  unfold run. destruct (is_pull_request env); cbn [negb]; [|exact I].
  unfold find_pull_requests. cbn [bind await never_throws].
  intros prs. destruct (length prs =? 0)%nat; [exact I|].
  unfold find_failed_check_runs. cbn [bind await never_throws].
  intros runs. apply never_throws_for_of. intros pr.
  apply never_throws_run_pr.
Qed.

End Throwing.

(** X19: [run] raises no error of its own: against a remote that fulfils
    every request, [run] is fulfilled. In particular [update_comment] is
    never given a comment without a body. *)
Theorem run_fulfilled_by_reliable_remote {W : Type} (h : remote W)
    (env : Env) (w : W) :
  (forall q w', exists x, fst (respond h q w') = Fulfilled x) ->
  result (exec h (run env) w) = Fulfilled tt.
Proof.
  intros Hremote.
  destruct (never_throws_fulfilled h (run env) w (never_throws_run env)
              Hremote) as [[] Hr].
  exact Hr.
Qed.

Lemma run_fulfilled_by_reliable_remote_witness :
  result (exec (Sample.github [Sample.unit_tests]) (run Sample.build) 0)
  = Fulfilled tt.
Proof.
  apply (run_fulfilled_by_reliable_remote
           (Sample.github [Sample.unit_tests]) Sample.build 0).
  intros q w'. destruct q; eexists; reflexivity.
Defined.
